(** * Cassis web server for Calibre: the controller's request logic

    A shallow embedding of the controller [cassis/index.js] (list and book-detail
    requests, page navigation, search-string tokenizer, cover thumbnails)
    and the properties of it that the specification states. *)

From Stdlib Require Import ZArith NArith Ascii String List Bool Lia.
From stdpp Require Import base option list strings gmap pretty.

(** ** The fragment of JavaScript values the controller computes with *)

Module JS.

(** A JavaScript number as the controller meets it: the result of
    [parseInt], a row count, a page index.  Integers are written as
    [Z]; sums, differences and products are the exact ones, which is
    what doubles give up to [2 ^ 53] in magnitude.  [NaN] is kept
    because [parseInt] produces it and every comparison with it is
    false. *)
Inductive number := NaN | Num (z : Z).

(** The values a numeric field of a JSON body, or a count returned by
    the catalogue store, can hold.  [Undefined] is an absent property.
    Strings and fractions in numeric fields are outside this model. *)
Inductive value :=
| Undefined
| Null
| Bool (b : bool)
| Number (n : number).

Definition ToBoolean (v : value) : bool :=
  match v with
  | Undefined | Null => false
  | Bool b => b
  | Number NaN => false
  | Number (Num z) => negb (z =? 0)%Z
  end.

Definition ToNumber (v : value) : number :=
  match v with
  | Undefined => NaN
  | Null => Num 0
  | Bool true => Num 1
  | Bool false => Num 0
  | Number n => n
  end.

Definition isNaN (v : value) : bool :=
  match ToNumber v with NaN => true | Num _ => false end.

(** The Number value for a natural number [x]: the nearest double, with
    ties going to the even mantissa.  Up to [2 ^ 53] it is [x] itself. *)
Definition round53 (x : Z) : Z :=
  let e := (Z.log2 x - 52)%Z in
  if (e <=? 0)%Z then x
  else
    let q := (x / 2 ^ e)%Z in
    let r := (x mod 2 ^ e)%Z in
    let half := (2 ^ (e - 1))%Z in
    let q' := if (r <? half)%Z then q
              else if (half <? r)%Z then (q + 1)%Z
              else if Z.even q then q else (q + 1)%Z in
    (q' * 2 ^ e)%Z.

(** From [2 ^ 1024 - 2 ^ 970] on, the Number value is [Infinity]. *)
Definition infinity_from : Z := (2 ^ 1024 - 2 ^ 970)%Z.

(** The first digit of the string of a double [x >= 10 ^ 21], which is
    in exponent form.  The digits of the string are the shortest ones
    that read back as [x]: one digit if a power of ten times a digit
    reads back as [x] (only the one above [x] can change the first
    digit), and otherwise digits that start as [x] itself does. *)
Definition exponent_digit (x : Z) : Z :=
  let p := (10 ^ (Z.of_nat (String.length (pretty x)) - 1))%Z in
  let lead := (x / p)%Z in
  if (round53 ((lead + 1) * p) =? x)%Z
  then (if (lead =? 9)%Z then 1 else lead + 1)%Z
  else lead.

(** [parseInt(v, 10)]: the argument is first turned into a string, so
    [undefined], [null], [true], [false], [NaN] and [Infinity] give
    [NaN]; an integer below [10 ^ 21] in magnitude gives itself; from
    there on the string is in exponent form, as in ["1e+21"], and the
    result is its first digit with the sign.  [Num z] stands for the
    Number value for [z]. *)
Definition parseInt (v : value) : number :=
  match v with
  | Number (Num z) =>
      let x := round53 (Z.abs z) in
      if (infinity_from <=? Z.abs z)%Z then NaN
      else if (x <? 10 ^ 21)%Z then Num z
      else Num (Z.sgn z * exponent_digit x)
  | Number NaN | Undefined | Null | Bool _ => NaN
  end.

Definition add (a b : number) : number :=
  match a, b with Num x, Num y => Num (x + y) | _, _ => NaN end.
Definition sub (a b : number) : number :=
  match a, b with Num x, Num y => Num (x - y) | _, _ => NaN end.
Definition mul (a b : number) : number :=
  match a, b with Num x, Num y => Num (x * y) | _, _ => NaN end.

Definition lt (a b : number) : bool :=
  match a, b with Num x, Num y => (x <? y)%Z | _, _ => false end.
Definition le (a b : number) : bool :=
  match a, b with Num x, Num y => (x <=? y)%Z | _, _ => false end.
Definition gt (a b : number) : bool := lt b a.

(** [a === b] on numbers; on the integers and [NaN], [a == b] agrees. *)
Definition eq (a b : number) : bool :=
  match a, b with Num x, Num y => (x =? y)%Z | _, _ => false end.

(** [v === 0] for a value of any type. *)
Definition is_zero (v : value) : bool :=
  match v with Number n => eq n (Num 0) | _ => false end.

(** [Math.ceil(a / b)].  The only divisor in the controller is
    [PAGE_LIMIT], which is never [0]; for [b = 0] JavaScript gives an
    infinity, which [number] does not have. *)
Definition ceil_div (a b : number) : number :=
  match a, b with
  | Num x, Num y => if (y =? 0)%Z then NaN else Num (- ((- x) / y))
  | _, _ => NaN
  end.

End JS.

(** ** Configuration read once at start-up *)

Record Config := {
  BOOKDIR : string;            (* process.env.BOOKDIR || HOME + "/Documents/Calibre" *)
  IMGCACHE : string;           (* process.env.IMGCACHE || "./Cache" *)
  PAGE_LIMIT_env : JS.number   (* parseInt(process.env.PAGE_LIMIT) *)
}.

(** [parseInt(process.env.PAGE_LIMIT) || 30] *)
Definition PAGE_LIMIT (cfg : Config) : Z :=
  match PAGE_LIMIT_env cfg with
  | JS.NaN => 30
  | JS.Num z => if (z =? 0)%Z then 30 else z
  end.

(** ** Page navigation *)

Module Nav.

(** The [value] of a navigation link is the string ["0"] or [""], or a
    page number. *)
Inductive linkvalue := LStr (s : string) | LNum (n : JS.number).

Record link := { value : linkvalue; class : string }.

(** The object [getPageNavigation] returns; [None] is an absent
    property. *)
Record pageNav := {
  size : JS.value;
  currentpage : option JS.number;
  firstpage : option link;
  prevpage : option link;
  nextpage : option link;
  lastpage : option link
}.

Definition disabled : link := {| value := LStr ""; class := "disabled" |}.
Definition enabled (v : linkvalue) : link := {| value := v; class := "" |}.

Definition getPageNavigation (cfg : Config) (page : JS.number) (count : JS.value)
  : pageNav :=
  let limit := JS.Num (PAGE_LIMIT cfg) in
  if JS.le (JS.ToNumber count) limit then
    {| size := count; currentpage := None; firstpage := None;
       prevpage := None; nextpage := None; lastpage := None |}
  else
    let lastpage := JS.sub (JS.ceil_div (JS.ToNumber count) limit) (JS.Num 1) in
    let page :=
      if JS.lt page (JS.Num 0) then JS.Num 0
      else if JS.gt page lastpage then lastpage
      else page in
    {| size := count;
       currentpage := Some page;
       firstpage := Some (if JS.lt (JS.Num 0) page then enabled (LStr "0") else disabled);
       prevpage := Some (if JS.gt page (JS.Num 0)
                         then enabled (LNum (JS.sub page (JS.Num 1))) else disabled);
       nextpage := Some (if JS.lt page lastpage
                         then enabled (LNum (JS.add page (JS.Num 1))) else disabled);
       lastpage := Some (if JS.le page lastpage then enabled (LNum lastpage) else disabled) |}.

End Nav.

(** ** The search-string tokenizer *)

Module Tokenizer.

(** A JavaScript string is a sequence of UTF-16 code units.  The model
    covers the code units 0..255 (Latin-1), one [ascii] each; on these
    the built-in string methods used by the tokenizer are as below. *)
Definition chars := list ascii.

Definition space : ascii := ascii_of_N 32.
Definition quote : ascii := ascii_of_N 39.

(** White space and line terminators removed by [String.prototype.trim]:
    TAB, LF, VT, FF, CR, SPACE and NO-BREAK SPACE. *)
Definition is_trim_space (c : ascii) : bool :=
  let n := N_of_ascii c in
  ((9 <=? n) && (n <=? 13) || (n =? 32) || (n =? 160))%N.

Fixpoint trimStart (l : chars) : chars :=
  match l with
  | [] => []
  | c :: l' => if is_trim_space c then trimStart l' else l
  end.

Fixpoint trimEnd (l : chars) : chars :=
  match l with
  | [] => []
  | c :: l' =>
      match trimEnd l' with
      | [] => if is_trim_space c then [] else [c]
      | r => c :: r
      end
  end.

Definition trim (l : chars) : chars := trimEnd (trimStart l).

(** [toLowerCase] on Latin-1: A..Z, and the accented capitals
    U+00C0..U+00DE except the multiplication sign U+00D7. *)
Definition lower_char (c : ascii) : ascii :=
  let n := N_of_ascii c in
  if ((65 <=? n) && (n <=? 90) || (192 <=? n) && (n <=? 222) && negb (n =? 215))%N
  then ascii_of_N (n + 32) else c.

Definition toLowerCase (l : chars) : chars := map lower_char l.

(** [whitespace_char01 = String.fromCharCode(172)] *)
Definition whitespace_char01 : ascii := ascii_of_N 172.

(** [.replaceAll(whitespace_char01, " ")] *)
Definition replace_char01 (l : chars) : chars :=
  map (fun c => if (N_of_ascii c =? 172)%N then space else c) l.

(** The character class of the regular expression [whitespace_chars]:
    slash, comma, full stop, bar, space, star, question and exclamation
    mark, colon, semicolon, round and square brackets, ampersand,
    double quote, plus. *)
Definition whitespace_codes : list N :=
  [47; 44; 46; 124; 32; 42; 63; 33; 58; 59; 40; 41; 91; 93; 38; 34; 43]%N.

Definition in_whitespace_chars (c : ascii) : bool :=
  existsb (N.eqb (N_of_ascii c)) whitespace_codes.

(** [.replaceAll(whitespace_chars, " ")]: the pattern is the class
    followed by [+] with the global flag, so every maximal run of class
    characters is one match.  [in_run] tells that the previous
    character belonged to the match being replaced. *)
Fixpoint replace_runs (in_run : bool) (l : chars) : chars :=
  match l with
  | [] => []
  | c :: l' =>
      if in_whitespace_chars c
      then (if in_run then replace_runs true l' else space :: replace_runs true l')
      else c :: replace_runs false l'
  end.

Definition replace_whitespace_chars (l : chars) : chars := replace_runs false l.

(** [.replaceAll("'", "''")] *)
Fixpoint double_quotes (l : chars) : chars :=
  match l with
  | [] => []
  | c :: l' =>
      if (N_of_ascii c =? 39)%N then quote :: quote :: double_quotes l'
      else c :: double_quotes l'
  end.

(** [.split(" ")]: the pieces between the spaces, empty pieces kept; the
    empty string gives one empty piece. *)
Fixpoint split (l : chars) : list chars :=
  match l with
  | [] => [[]]
  | c :: l' =>
      if (N_of_ascii c =? 32)%N then [] :: split l'
      else match split l' with
           | [] => [[c]]
           | t :: ts => (c :: t) :: ts
           end
  end.

(** [.join(" ")] *)
Fixpoint join (ts : list chars) : chars :=
  match ts with
  | [] => []
  | [t] => t
  | t :: ts' => t ++ space :: join ts'
  end.

Definition normalize (l : chars) : chars :=
  double_quotes (replace_whitespace_chars (replace_char01 (toLowerCase (trim l)))).

Definition searchStringToArray (s : string) : list string :=
  map string_of_list_ascii (split (normalize (list_ascii_of_string s))).

(** [tokens.join(" ")] on strings. *)
Definition join_tokens (ts : list string) : string := String.concat " " ts.

(** *** The pipeline as the specification words it

    Lowercase; turn the alternate word separator into a space; collapse
    the punctuation and white-space class to single spaces; double the
    single quotes; split on spaces.  There is no trimming step.  The
    collapsing is written from its description (a class character is
    dropped when another follows it, and becomes a space otherwise) and
    the splitting collects the current token in an accumulator. *)
Fixpoint spec_collapse (l : chars) : chars :=
  match l with
  | [] => []
  | c :: l' =>
      if in_whitespace_chars c then
        match l' with
        | c' :: _ => if in_whitespace_chars c' then spec_collapse l'
                     else space :: spec_collapse l'
        | [] => [space]
        end
      else c :: spec_collapse l'
  end.

Fixpoint spec_split_go (cur : chars) (l : chars) : list chars :=
  match l with
  | [] => [rev cur]
  | c :: l' =>
      if (N_of_ascii c =? 32)%N then rev cur :: spec_split_go [] l'
      else spec_split_go (c :: cur) l'
  end.

Definition spec_pipeline (l : chars) : list chars :=
  spec_split_go []
    (double_quotes (spec_collapse (replace_char01 (toLowerCase l)))).

Definition spec_tokenize (s : string) : list string :=
  map string_of_list_ascii (spec_pipeline (list_ascii_of_string s)).

(** What [replace_char01] does to one character. *)
Definition sep01 (c : ascii) : ascii :=
  if (N_of_ascii c =? 172)%N then space else c.

(** The string between the trimming and the doubling of quotes. *)
Definition collapsed (l : chars) : chars :=
  replace_whitespace_chars (replace_char01 (toLowerCase l)).

(** A separator: the alternate word separator or a class character. *)
Definition is_separator (c : ascii) : bool :=
  (N_of_ascii c =? 172)%N || in_whitespace_chars c.

End Tokenizer.


(** ** Rows of the catalogue and the request's option bag *)

Module Catalog.

Record AuthorRow := {
  author_bookId : Z;
  authorsId : Z;
  authorsName : string
}.

Record FormatRow := { format_bookId : Z; format_name : string }.

Record SerieRow := {
  serie_bookId : Z;
  seriesId : Z;
  seriesName : string
}.

Record CustomValue := { cc_id : Z; cc_name : string }.

Record TagRow := {
  tag_bookId : Z;
  tagName : string;
  colId : JS.value;
  subTags : option (list CustomValue)
}.

Record PublisherRow := { publisher_id : Z; publisher_name : string }.

(** [book.tags] holds tag names after [addFields] and tag rows after
    [bookAction]. *)
Inductive TagsField := TagNames (l : list string) | TagRows (l : list TagRow).

(** A book row; the fields after [pubdate] are attached by the
    controller and absent ([None]) in a row fresh from the store.
    A [pubdate] of [None] is [null]. *)
Record Book := {
  bookId : Z;
  title : string;
  pubdate : option string;
  authors : option (list AuthorRow);
  formats : option (list string);
  serie : option SerieRow;
  tags : option TagsField;
  publisher : option PublisherRow
}.

(** The variable [books] of [listAction]: the object literal it starts
    as (which has no [length]) or the array a find query returned. *)
Inductive Books := EmptyObject | Rows (l : list Book).

(** What [getCoverData] returns for a book. *)
Record CoverData := { cover_path : string; cover_bookId : Z }.

(** The book-id argument of the lookups of related rows: [addFields]
    passes the ids of a page joined by commas, [bookAction] one number. *)
Inductive IdArg := IdString (s : string) | IdNumber (n : JS.number).

End Catalog.

Module Req.

(** The options of a list or book-detail request: the fields the
    handlers read of the object that [JSON.parse(body)] returns.  The
    numeric fields are absent, [null], booleans or integers; [type],
    [sortString] and [searchString] are absent or strings.  A body
    that does not parse, and a [searchString] of another type, are
    told apart in [Request.Body]. *)
Record Options := {
  page : JS.value;
  sortString : option string;
  type : option string;
  searchString : option string;
  tagId : JS.value;
  ccNum : JS.value;
  ccId : JS.value;
  serieId : JS.value;
  authorsId : JS.value;
  bookId : JS.value;
  num : JS.value
}.

(** [{}], the options of a request without body. *)
Definition empty : Options :=
  {| page := JS.Undefined; sortString := None; type := None;
     searchString := None; tagId := JS.Undefined; ccNum := JS.Undefined;
     ccId := JS.Undefined; serieId := JS.Undefined;
     authorsId := JS.Undefined; bookId := JS.Undefined; num := JS.Undefined |}.

End Req.

(** ** Effects: store queries, the thumbnail cache, the response *)

Module Eff.
Import Catalog.

(** An exception with its [message]. *)
Inductive Error :=
| TypeError (message : string)
| SyntaxError (message : string)
| StoreError (message : string).

Definition message (e : Error) : string :=
  match e with TypeError m | SyntaxError m | StoreError m => m end.

Inductive Result (A : Type) := Ok (a : A) | Throw (e : Error).
Arguments Ok {A} a.
Arguments Throw {A} e.

Definition SearchArray := option (list string).

(** The catalogue store ([model.js]), an external collaborator: one
    function per query, each returning its rows or throwing. *)
Record Store := {
  countBooks : SearchArray -> Result JS.value;
  findBooks : SearchArray -> string -> JS.number -> JS.number -> Result (list Book);
  countBooksWithTags : SearchArray -> JS.number -> Result JS.value;
  findBooksWithTags :
    SearchArray -> string -> JS.number -> JS.number -> JS.number -> Result (list Book);
  countBooksWithCC : JS.number -> SearchArray -> JS.number -> Result JS.value;
  findBooksWithCC :
    JS.number -> SearchArray -> string -> JS.number -> JS.number -> JS.number
    -> Result (list Book);
  countBooksBySerie : JS.number -> Result JS.value;
  findBooksBySerie : JS.number -> string -> JS.number -> JS.number -> Result (list Book);
  countBooksByAuthor : JS.number -> Result JS.value;
  findBooksByAuthor : JS.number -> string -> JS.number -> JS.number -> Result (list Book);
  getAuthorsOfBooks : IdArg -> Result (list AuthorRow);
  getFormatsOfBooks : IdArg -> Result (list FormatRow);
  getSeriesOfBooks : IdArg -> Result (list SerieRow);
  getTagsOfBooks : IdArg -> Result (list TagRow);
  getPublisherOfBooks : JS.number -> Result (option PublisherRow);
  getCustomColumnOfBooks : JS.value -> JS.number -> Result (list CustomValue);
  getBook : JS.number -> Result (option Book);
  getCoverData : JS.number -> Result (option CoverData)
}.

(** The store calls of a request, in the order they are made. *)
Inductive Query :=
| QcountBooks (sa : SearchArray)
| QfindBooks (sa : SearchArray) (sort : string) (limit offset : JS.number)
| QcountBooksWithTags (sa : SearchArray) (tagId : JS.number)
| QfindBooksWithTags (sa : SearchArray) (sort : string) (tagId limit offset : JS.number)
| QcountBooksWithCC (ccNum : JS.number) (sa : SearchArray) (ccId : JS.number)
| QfindBooksWithCC (ccNum : JS.number) (sa : SearchArray) (sort : string)
    (ccId limit offset : JS.number)
| QcountBooksBySerie (seriesId : JS.number)
| QfindBooksBySerie (seriesId : JS.number) (sort : string) (limit offset : JS.number)
| QcountBooksByAuthor (authorsId : JS.number)
| QfindBooksByAuthor (authorsId : JS.number) (sort : string) (limit offset : JS.number)
| QgetAuthorsOfBooks (ids : IdArg)
| QgetFormatsOfBooks (ids : IdArg)
| QgetSeriesOfBooks (ids : IdArg)
| QgetTagsOfBooks (ids : IdArg)
| QgetPublisherOfBooks (id : JS.number)
| QgetCustomColumnOfBooks (colId : JS.value) (id : JS.number)
| QgetBook (id : JS.number)
| QgetCoverData (id : JS.number).

(** The geometry handed to [sharp(...).resize]. *)
Inductive ResizeData := Height (h : Z) | Width (w : Z).

(** Image files: a cover as stored in the library, or the output of a
    resize. *)
Inductive Image := Original (label : string) | Resized (geometry : ResizeData) (src : Image).

Record ResizeCall := {
  resize_source : string;
  resize_data : ResizeData;
  resize_target : string
}.

(** What the controller does with the response object.  A [Render_*]
    hands the data to the view layer, whose callback then sends the
    markup. *)
Inductive Response :=
| Send_html (html : string)
| Render_booklist (books : Books) (pageNav : Nav.pageNav)
| Render_book (book : Book) (prevBook nextBook : option Book)
| SendFile (root file : string) (content_type : string) (content : Image)
| WriteHead_end (status : Z) (statusMessage : string).

Record World := {
  queries : list Query;
  files : gmap string Image;
  dirs : gset string;
  resizes : list ResizeCall;
  responses : list Response
}.

Definition M (A : Type) : Type := World -> Result A * World.

Global Instance M_ret : MRet M := fun A a w => (Ok a, w).
Global Instance M_bind : MBind M := fun A B f m w =>
  match m w with
  | (Ok a, w') => f a w'
  | (Throw e, w') => (Throw e, w')
  end.

Definition throw {A} (e : Error) : M A := fun w => (Throw e, w).

(** [try { m } catch (error) { h error }] *)
Definition try_catch {A} (m : M A) (h : Error -> M A) : M A := fun w =>
  match m w with
  | (Ok a, w') => (Ok a, w')
  | (Throw e, w') => h e w'
  end.

Definition log_query (q : Query) (w : World) : World :=
  {| queries := queries w ++ [q]; files := files w; dirs := dirs w;
     resizes := resizes w; responses := responses w |}.

Definition log_response (r : Response) (w : World) : World :=
  {| queries := queries w; files := files w; dirs := dirs w;
     resizes := resizes w; responses := responses w ++ [r] |}.

Definition log_resize (call : ResizeCall) (w : World) : World :=
  {| queries := queries w; files := files w; dirs := dirs w;
     resizes := resizes w ++ [call]; responses := responses w |}.

Definition write_file (path : string) (img : Image) (w : World) : World :=
  {| queries := queries w; files := <[path := img]> (files w); dirs := dirs w;
     resizes := resizes w; responses := responses w |}.

Definition add_dir (dir : string) (w : World) : World :=
  {| queries := queries w; files := files w; dirs := {[dir]} ∪ dirs w;
     resizes := resizes w; responses := responses w |}.

(** A store call: it is recorded, and its result or exception is the
    store's. *)
Definition query {A} (q : Query) (r : Result A) : M A := fun w =>
  (r, log_query q w).

Definition respond (r : Response) : M unit := fun w =>
  (Ok tt, log_response r w).

(** [fs.ensureDirSync(dir)] *)
Definition ensureDirSync (dir : string) : M unit := fun w =>
  (Ok tt, add_dir dir w).

(** [fs.pathExists(path, callback)]: whether a file or a directory is
    at [path]; the callback receives no error. *)
Definition pathExists (path : string) : M bool := fun w =>
  (Ok (bool_decide (is_Some (files w !! path)) || bool_decide (path ∈ dirs w)), w).

(** [sharp(source).resize(resizeData).toFile(target, callback)]: the
    call is recorded; the resized image is written to [target] when the
    source can be read, and nothing is written otherwise.  The callback
    of the controller does not look at the outcome. *)
Definition sharp_toFile (source : string) (resizeData : ResizeData) (target : string)
  : M unit := fun w =>
  let w' := log_resize {| resize_source := source; resize_data := resizeData;
                          resize_target := target |} w in
  (Ok tt, match files w !! source with
          | Some img => write_file target (Resized resizeData img) w'
          | None => w'
          end).

(** [response.sendFile(file, {root, headers}, callback)]: the file is
    sent when it exists; otherwise only the callback runs, and the
    controller's callback writes nothing to the response. *)
Definition sendFile (root file : string) (content_type : string) : M unit := fun w =>
  match files w !! (root +:+ "/" +:+ file) with
  | Some img => respond (SendFile root file content_type img) w
  | None => (Ok tt, w)
  end.

Definition initial (fs : gmap string Image) (ds : gset string) : World :=
  {| queries := []; files := fs; dirs := ds; resizes := []; responses := [] |}.

End Eff.

(** ** The controller *)

Module Controller.
Import Catalog Eff.

(** [.replaceAll(a, b)] for single characters. *)
Fixpoint replaceAll_char (a b : ascii) (s : string) : string :=
  match s with
  | EmptyString => EmptyString
  | String c s' =>
      String (if Ascii.eqb c a then b else c) (replaceAll_char a b s')
  end.

Definition decode (str : string) : string :=
  match str with
  | EmptyString => ""
  | _ => replaceAll_char "|" "," str
  end.

(** [(!v || isNaN(v)) ? 0 : parseInt(v, 10)] *)
Definition numField (v : JS.value) : JS.number :=
  if negb (JS.ToBoolean v) || JS.isNaN v then JS.Num 0 else JS.parseInt v.

(** Truthiness of an optional string property and of a number. *)
Definition truthy_string (s : option string) : bool :=
  match s with
  | Some (String _ _) => true
  | _ => false
  end.

Definition truthy (n : JS.number) : bool := JS.ToBoolean (JS.Number n).

(** [a || b] on optional strings. *)
Definition or_string (a b : option string) : option string :=
  if truthy_string a then a else b.

(** [type === label], the test of a [case] of [switch (type)]. *)
Definition is_case (type : option string) (label : string) : bool :=
  match type with
  | Some s => String.eqb s label
  | None => false
  end.

(** [(!options.sortString) ? "" : options.sortString] *)
Definition sortField (s : option string) : string :=
  match s with
  | Some s' => s'
  | None => ""
  end.

(** [(options.searchString) ? searchStringToArray(options.searchString) : null] *)
Definition searchField (s : option string) : SearchArray :=
  match s with
  | Some (String _ _ as searchString) =>
      Some (Tokenizer.searchStringToArray searchString)
  | _ => None
  end.

Definition set_authors (b : Book) (v : list AuthorRow) : Book :=
  {| bookId := bookId b; title := title b; pubdate := pubdate b;
     authors := Some v; formats := formats b; serie := serie b;
     tags := tags b; publisher := publisher b |}.
Definition set_formats (b : Book) (v : list string) : Book :=
  {| bookId := bookId b; title := title b; pubdate := pubdate b;
     authors := authors b; formats := Some v; serie := serie b;
     tags := tags b; publisher := publisher b |}.
Definition set_serie (b : Book) (v : SerieRow) : Book :=
  {| bookId := bookId b; title := title b; pubdate := pubdate b;
     authors := authors b; formats := formats b; serie := Some v;
     tags := tags b; publisher := publisher b |}.
Definition set_tags (b : Book) (v : TagsField) : Book :=
  {| bookId := bookId b; title := title b; pubdate := pubdate b;
     authors := authors b; formats := formats b; serie := serie b;
     tags := Some v; publisher := publisher b |}.
Definition set_publisher (b : Book) (v : PublisherRow) : Book :=
  {| bookId := bookId b; title := title b; pubdate := pubdate b;
     authors := authors b; formats := formats b; serie := serie b;
     tags := tags b; publisher := Some v |}.
Definition set_pubdate (b : Book) (v : option string) : Book :=
  {| bookId := bookId b; title := title b; pubdate := v;
     authors := authors b; formats := formats b; serie := serie b;
     tags := tags b; publisher := publisher b |}.

Definition decode_author (a : AuthorRow) : AuthorRow :=
  {| author_bookId := author_bookId a; authorsId := authorsId a;
     authorsName := decode (authorsName a) |}.
Definition decode_serie (s : SerieRow) : SerieRow :=
  {| serie_bookId := serie_bookId s; seriesId := seriesId s;
     seriesName := decode (seriesName s) |}.
Definition decode_publisher (p : PublisherRow) : PublisherRow :=
  {| publisher_id := publisher_id p; publisher_name := decode (publisher_name p) |}.

Definition no_books_message : string :=
  "Keine B" +:+ String (ascii_of_N 252) "cher/Zeitschriften gefunden!".
Definition access_error_message : string :=
  "Fehler beim Zugriff auf die Datenbank!".

Definition message_html (message : string) : string :=
  "<div class='message'><h3>" +:+ message +:+ "</h3></div>".

(** The characters [response.writeHead] accepts in a status message:
    TAB, 0x20..0x7E and 0x80..0xFF. *)
Definition statusMessage_char (c : ascii) : bool :=
  let n := N_of_ascii c in
  ((n =? 9) || (32 <=? n) && (n <=? 126) || (128 <=? n))%N.

Definition valid_statusMessage (s : string) : bool :=
  forallb statusMessage_char (list_ascii_of_string s).

(** [errorHandler(error, response, actionName)]: [writeHead] throws on a
    status message with a character it does not accept, and then
    nothing is written. *)
Definition errorHandler (error : Error) (actionName : string) : M unit :=
  let message :=
    "Cassis: Internal server error in '" +:+ actionName +:+ "': "
    +:+ Eff.message error in
  if valid_statusMessage message
  then respond (WriteHead_end 500 message)
  else throw (TypeError "Invalid character in statusMessage").

Section WithStore.
Variable cfg : Config.
Variable st : Store.

Definition limit : JS.number := JS.Num (PAGE_LIMIT cfg).

Definition addFields (books : Books) : M Books :=
  match books with
  | Rows ((_ :: _) as l) =>
      let bookIdString :=
        IdString (String.concat "," (map (fun b => pretty (bookId b)) l)) in
      authors ← query (QgetAuthorsOfBooks bookIdString) (getAuthorsOfBooks st bookIdString);
      let l := map (fun b => set_authors b
                 (map decode_author
                    (List.filter (fun a => (author_bookId a =? bookId b)%Z) authors))) l in
      formats ← query (QgetFormatsOfBooks bookIdString) (getFormatsOfBooks st bookIdString);
      let l := map (fun b => set_formats b
                 (map (fun f => decode (format_name f))
                    (List.filter (fun f => (format_bookId f =? bookId b)%Z) formats))) l in
      series ← query (QgetSeriesOfBooks bookIdString) (getSeriesOfBooks st bookIdString);
      let l := map (fun b =>
                 match List.find (fun s => (serie_bookId s =? bookId b)%Z) series with
                 | Some s => set_serie b (decode_serie s)
                 | None => b
                 end) l in
      tags ← query (QgetTagsOfBooks bookIdString) (getTagsOfBooks st bookIdString);
      let l := map (fun b => set_tags b
                 (TagNames (map (fun t => decode (tagName t))
                    (List.filter (fun t => (tag_bookId t =? bookId b)%Z) tags)))) l in
      mret (Rows l)
  | _ => mret books
  end.

(** [books.length === 0] *)
Definition length_is_zero (books : Books) : bool :=
  match books with
  | Rows [] => true
  | _ => false
  end.

(** The body of the ['end'] handler of [listAction], from the parsed
    [options]; [params_type] is [request.params.type]. *)
Definition listAction (options : Req.Options) (params_type : option string) : M unit :=
  let page := numField (Req.page options) in
  let sortString := sortField (Req.sortString options) in
  let type := or_string (Req.type options) params_type in
  let offset := JS.mul page limit in
  '(count, books) ←
    if is_case type "serie" then
        let seriesId := numField (Req.serieId options) in
        count ← query (QcountBooksBySerie seriesId) (countBooksBySerie st seriesId);
        if negb (JS.is_zero count) then
          books ← query (QfindBooksBySerie seriesId sortString limit offset)
                    (findBooksBySerie st seriesId sortString limit offset);
          mret (count, Rows books)
        else mret (count, EmptyObject)
    else if is_case type "author" then
        let authorsId := numField (Req.authorsId options) in
        count ← query (QcountBooksByAuthor authorsId) (countBooksByAuthor st authorsId);
        if negb (JS.is_zero count) then
          books ← query (QfindBooksByAuthor authorsId sortString limit offset)
                    (findBooksByAuthor st authorsId sortString limit offset);
          mret (count, Rows books)
        else mret (count, EmptyObject)
    else
        let searchArray := searchField (Req.searchString options) in
        let tagId := numField (Req.tagId options) in
        let ccNum := numField (Req.ccNum options) in
        let ccId := numField (Req.ccId options) in
        if truthy tagId && JS.gt tagId (JS.Num 0) then
          count ← query (QcountBooksWithTags searchArray tagId)
                    (countBooksWithTags st searchArray tagId);
          if negb (JS.is_zero count) then
            books ← query (QfindBooksWithTags searchArray sortString tagId limit offset)
                      (findBooksWithTags st searchArray sortString tagId limit offset);
            mret (count, Rows books)
          else mret (count, EmptyObject)
        else if truthy ccNum && JS.gt ccNum (JS.Num 0) then
          count ← query (QcountBooksWithCC ccNum searchArray ccId)
                    (countBooksWithCC st ccNum searchArray ccId);
          if negb (JS.is_zero count) then
            books ← query (QfindBooksWithCC ccNum searchArray sortString ccId limit offset)
                      (findBooksWithCC st ccNum searchArray sortString ccId limit offset);
            mret (count, Rows books)
          else mret (count, EmptyObject)
        else if JS.eq tagId (JS.Num 0) && JS.eq ccNum (JS.Num 0) then
          count ← query (QcountBooks searchArray) (countBooks st searchArray);
          if JS.ToBoolean count && negb (JS.is_zero count) then
            books ← query (QfindBooks searchArray sortString limit offset)
                      (findBooks st searchArray sortString limit offset);
            mret (count, Rows books)
          else mret (count, EmptyObject)
        else mret (JS.Number (JS.Num 0), EmptyObject);
  if JS.le (JS.ToNumber count) (JS.Num 0) || length_is_zero books then
    let message :=
      if JS.is_zero count then no_books_message else access_error_message in
    respond (Send_html (message_html message))
  else
    books ← addFields books;
    let pageNav := Nav.getPageNavigation cfg page count in
    respond (Render_booklist books pageNav).

(** [arr[0]] where [arr] may be [undefined] ([None]). *)
Definition first_of (arr : option (list Book)) : M (option Book) :=
  match arr with
  | Some l => mret (head l)
  | None => throw (TypeError "Cannot read properties of undefined (reading '0')")
  end.

(** [(rowNum === 0) ? [] : find(...)] *)
Definition unless_first (rowNum : JS.number) (find : M (list Book)) : M (list Book) :=
  if JS.eq rowNum (JS.Num 0) then mret [] else find.

(** The block of [bookAction] that resolves [prevBook] and
    [nextBook]; the result is the pair [(prevBook, nextBook)]. *)
Definition adjacentBooks (options : Req.Options) : M (option Book * option Book) :=
  if negb (match Req.bookId options with JS.Undefined => true | _ => false end)
     && JS.ToBoolean (Req.num options)
  then
    let rowNum := JS.sub (JS.parseInt (Req.num options)) (JS.Num 1) in
    let sortString := sortField (Req.sortString options) in
    let type := Req.type options in
    let one := JS.Num 1 in
    let before := JS.sub rowNum (JS.Num 1) in
    let after := JS.add rowNum (JS.Num 1) in
    '(prevBookArray, nextBookArray) ←
      if is_case type "serie" then
          let seriesId := numField (Req.serieId options) in
          prev ← unless_first rowNum
                   (query (QfindBooksBySerie seriesId sortString one before)
                      (findBooksBySerie st seriesId sortString one before));
          next ← query (QfindBooksBySerie seriesId sortString one after)
                   (findBooksBySerie st seriesId sortString one after);
          mret (Some prev, Some next)
      else if is_case type "author" then
          let authorsId := numField (Req.authorsId options) in
          prev ← unless_first rowNum
                   (query (QfindBooksByAuthor authorsId sortString one before)
                      (findBooksByAuthor st authorsId sortString one before));
          next ← query (QfindBooksByAuthor authorsId sortString one after)
                   (findBooksByAuthor st authorsId sortString one after);
          mret (Some prev, Some next)
      else
          let searchArray := searchField (Req.searchString options) in
          let tagId := numField (Req.tagId options) in
          let ccNum := numField (Req.ccNum options) in
          let ccId := numField (Req.ccId options) in
          if truthy tagId && JS.gt tagId (JS.Num 0) then
            prev ← unless_first rowNum
                     (query (QfindBooksWithTags searchArray sortString tagId one before)
                        (findBooksWithTags st searchArray sortString tagId one before));
            next ← query (QfindBooksWithTags searchArray sortString tagId one after)
                     (findBooksWithTags st searchArray sortString tagId one after);
            mret (Some prev, Some next)
          else if truthy ccNum && JS.gt ccNum (JS.Num 0) then
            prev ← unless_first rowNum
                     (query (QfindBooksWithCC ccNum searchArray sortString ccId one before)
                        (findBooksWithCC st ccNum searchArray sortString ccId one before));
            next ← query (QfindBooksWithCC ccNum searchArray sortString ccId one after)
                     (findBooksWithCC st ccNum searchArray sortString ccId one after);
            mret (Some prev, Some next)
          else if JS.eq tagId (JS.Num 0) && JS.eq ccNum (JS.Num 0) then
            prev ← unless_first rowNum
                     (query (QfindBooks searchArray sortString one before)
                        (findBooks st searchArray sortString one before));
            next ← query (QfindBooks searchArray sortString one after)
                     (findBooks st searchArray sortString one after);
            mret (Some prev, Some next)
          else mret (None, None);
    nextBook ← first_of nextBookArray;
    prevBook ← first_of prevBookArray;
    mret (prevBook, nextBook)
  else mret (None, None).

Definition with_subTags (bookId : JS.number) (t : TagRow) : M TagRow :=
  let name := decode (tagName t) in
  if JS.ToBoolean (colId t) then
    sub ← query (QgetCustomColumnOfBooks (colId t) bookId)
            (getCustomColumnOfBooks st (colId t) bookId);
    mret {| tag_bookId := tag_bookId t; tagName := name; colId := colId t;
            subTags := Some sub |}
  else
    mret {| tag_bookId := tag_bookId t; tagName := name; colId := colId t;
            subTags := subTags t |}.

(** The body of the ['end'] handler of [bookAction]. *)
Definition bookAction (options : Req.Options) : M unit :=
  let bookId := JS.parseInt (Req.bookId options) in
  book ← query (QgetBook bookId) (getBook st bookId);
  '(prevBook, nextBook) ← adjacentBooks options;
  formats ← query (QgetFormatsOfBooks (IdNumber bookId))
              (getFormatsOfBooks st (IdNumber bookId));
  book ← match book with
          | Some b => mret (set_formats b (map (fun f => decode (format_name f)) formats))
          | None => throw (TypeError
                      "Cannot set properties of undefined (setting 'formats')")
          end;
  authors ← query (QgetAuthorsOfBooks (IdNumber bookId))
              (getAuthorsOfBooks st (IdNumber bookId));
  let book := set_authors book (map decode_author authors) in
  publisher ← query (QgetPublisherOfBooks bookId) (getPublisherOfBooks st bookId);
  let book := match publisher with
              | Some p => set_publisher book (decode_publisher p)
              | None => book
              end in
  tags ← query (QgetTagsOfBooks (IdNumber bookId)) (getTagsOfBooks st (IdNumber bookId));
  tags ← mapM (with_subTags bookId) tags;
  let book := set_tags book (TagRows tags) in
  series ← query (QgetSeriesOfBooks (IdNumber bookId))
             (getSeriesOfBooks st (IdNumber bookId));
  let book := match series with
              | s :: _ => set_serie book (decode_serie s)
              | [] => book
              end in
  book ← match pubdate book with
          | Some date =>
              if String.eqb (String.substring 0 1 date) "0"
              then mret (set_pubdate book None)
              else mret book
          | None => throw (TypeError
                      "Cannot read properties of null (reading 'substr')")
          end;
  respond (Render_book book prevBook nextBook).

(** *** Cover thumbnails *)

(** [s.slice(-n)]: the last [n] characters, or all of [s] when it is
    shorter. *)
Definition slice_last (n : nat) (s : string) : string :=
  let l := list_ascii_of_string s in
  string_of_list_ascii (drop (length l - n) l).

(** [s.substring(0, n)] *)
Definition substring_0 (n : nat) (s : string) : string :=
  string_of_list_ascii (take n (list_ascii_of_string s)).

(** [("0000" + bookId).slice(-5).substring(0, 2)] *)
Definition shard (bookId : Z) : string :=
  substring_0 2 (slice_last 5 ("0000" +:+ pretty bookId)).

Definition cacheDir (leadingDigit : string) (bookId : Z) : string :=
  IMGCACHE cfg +:+ "/" +:+ leadingDigit +:+ shard bookId.

Definition cacheFile (bookId : Z) : string := pretty bookId +:+ ".jpg".

Definition coverSource (fileData : CoverData) : string :=
  BOOKDIR cfg +:+ "/" +:+ cover_path fileData +:+ "/cover.jpg".

(** The callbacks of [pathExists], [toFile] and [sendFile] are run in
    the order in which they are chained; one request is followed at a
    time.  Both inner callbacks test the [error] of [pathExists], which
    is null where they run, so the file is sent whatever the resize
    reported, and a failed [sendFile] writes nothing. *)
Definition sendResizedCover (source targetDir targetFile : string)
    (resizeData : ResizeData) : M unit :=
  try_catch
    (exists_ ← pathExists (targetDir +:+ "/" +:+ targetFile);
     if exists_ : bool then sendFile targetDir targetFile "image/jpeg"
     else
       sharp_toFile source resizeData (targetDir +:+ "/" +:+ targetFile);;
       sendFile targetDir targetFile "image/jpeg")
    (fun error => errorHandler error "sendResizedCover").

(** [id] is [parseInt(request.params.id, 10)]. *)
Definition coverListAction (id : JS.number) : M unit :=
  try_catch
    (fileData ← query (QgetCoverData id) (getCoverData st id);
     match fileData with
     | Some fileData =>
         let source := coverSource fileData in
         let targetDir := cacheDir "1" (cover_bookId fileData) in
         ensureDirSync targetDir;;
         sendResizedCover source targetDir (cacheFile (cover_bookId fileData))
           (Height 250)
     | None => mret tt
     end)
    (fun error => errorHandler error "coverListAction").

Definition coverBookAction (id : JS.number) : M unit :=
  try_catch
    (fileData ← query (QgetCoverData id) (getCoverData st id);
     fileData ← match fileData with
                 | Some fileData => mret fileData
                 | None => throw (TypeError
                             "Cannot read properties of undefined (reading 'path')")
                 end;
     let source := coverSource fileData in
     let targetDir := cacheDir "0" (cover_bookId fileData) in
     ensureDirSync targetDir;;
     sendResizedCover source targetDir (cacheFile (cover_bookId fileData))
       (Width 320))
    (fun error => errorHandler error "coverBookAction").

End WithStore.

End Controller.

(** ** The request body *)

Module Request.
Import Catalog Eff Controller.

(** The body of a request as the ['end'] handlers meet it in
    [if (body) options = JSON.parse(body)]: no body at all, a text that
    is not JSON, the text [null], or an object with its fields.
    [searchString_other] says that [searchString] is a truthy value
    that is not a string (a number, [true], an array, an object);
    [Req.searchString] is not read then.  A body that parses to a
    number, a string, a boolean or an array has none of the options,
    as [Fields Req.empty false]. *)
Inductive Body :=
| NoBody
| NotJSON (message : string)
| JSONnull
| Fields (options : Req.Options) (searchString_other : bool).

(** The branches of the [switch] on the type that evaluate
    [searchStringToArray(options.searchString)]: all but ["serie"] and
    ["author"]. *)
Definition reads_searchString (type : option string) : bool :=
  negb (is_case type "serie" || is_case type "author").

(** [options.bookId !== undefined && options.num] *)
Definition has_position (options : Req.Options) : bool :=
  negb (match Req.bookId options with JS.Undefined => true | _ => false end)
  && JS.ToBoolean (Req.num options).


(** The ['end'] handler of [bookAction].  The book is fetched before
    the block of the neighbours, which is where a [searchString] that
    is not a string throws. *)
Definition bookAction_end (st : Store) (body : Body) : M unit :=
  match body with
  | NoBody => bookAction st Req.empty
  | NotJSON m => throw (SyntaxError m)
  | JSONnull => throw (TypeError "Cannot read properties of null (reading 'bookId')")
  | Fields options other =>
      if other && has_position options && reads_searchString (Req.type options)
      then
        let bookId := JS.parseInt (Req.bookId options) in
        _ ← query (QgetBook bookId) (getBook st bookId);
        throw (TypeError "s.trim is not a function")
      else bookAction st options
  end.

End Request.

(** ** Vocabulary of the specification *)

Module Spec.
Import Catalog Eff Controller.

(** The five filter dimensions, each with its pair of count and find
    queries. *)
Inductive Dimension := Plain | Tag | CustomColumn | Serie | Author.

Definition dimension_of (q : Query) : option Dimension :=
  match q with
  | QcountBooks _ | QfindBooks _ _ _ _ => Some Plain
  | QcountBooksWithTags _ _ | QfindBooksWithTags _ _ _ _ _ => Some Tag
  | QcountBooksWithCC _ _ _ | QfindBooksWithCC _ _ _ _ _ _ => Some CustomColumn
  | QcountBooksBySerie _ | QfindBooksBySerie _ _ _ _ => Some Serie
  | QcountBooksByAuthor _ | QfindBooksByAuthor _ _ _ _ => Some Author
  | _ => None
  end.

(** The dimensions of the count and find queries made so far. *)
Definition dimensions (w : World) : list Dimension :=
  omap dimension_of (queries w).

(** A computation that makes no count or find query. *)
Definition quiet {A} (m : M A) : Prop :=
  forall w, dimensions (m w).2 = dimensions w.

(** The precedence as the specification words it, for a request whose
    type is neither "serie" nor "author". *)
Definition worded_precedence (tagId ccNum : JS.number) : Dimension :=
  if JS.gt tagId (JS.Num 0) then Tag
  else if JS.gt ccNum (JS.Num 0) then CustomColumn
  else Plain.

(** The precedence with the guard of the plain search. *)
Definition guarded_precedence (tagId ccNum : JS.number) : option Dimension :=
  if JS.gt tagId (JS.Num 0) then Some Tag
  else if JS.gt ccNum (JS.Num 0) then Some CustomColumn
  else if JS.eq tagId (JS.Num 0) && JS.eq ccNum (JS.Num 0) then Some Plain
  else None.

Definition dedicated (type : option string) : bool :=
  is_case type "serie" || is_case type "author".

(** A resolved filter: the active dimension with the arguments its
    queries take. *)
Inductive Filter :=
| BySerie (seriesId : JS.number)
| ByAuthor (authorsId : JS.number)
| ByTag (searchArray : SearchArray) (tagId : JS.number)
| ByCC (ccNum : JS.number) (searchArray : SearchArray) (ccId : JS.number)
| BySearch (searchArray : SearchArray).

Definition dimension (f : Filter) : Dimension :=
  match f with
  | BySerie _ => Serie
  | ByAuthor _ => Author
  | ByTag _ _ => Tag
  | ByCC _ _ _ => CustomColumn
  | BySearch _ => Plain
  end.

Definition count_query (f : Filter) : Query :=
  match f with
  | BySerie i => QcountBooksBySerie i
  | ByAuthor i => QcountBooksByAuthor i
  | ByTag sa t => QcountBooksWithTags sa t
  | ByCC n sa i => QcountBooksWithCC n sa i
  | BySearch sa => QcountBooks sa
  end.

Definition find_query (f : Filter) (sort : string) (limit offset : JS.number) : Query :=
  match f with
  | BySerie i => QfindBooksBySerie i sort limit offset
  | ByAuthor i => QfindBooksByAuthor i sort limit offset
  | ByTag sa t => QfindBooksWithTags sa sort t limit offset
  | ByCC n sa i => QfindBooksWithCC n sa sort i limit offset
  | BySearch sa => QfindBooks sa sort limit offset
  end.

Definition store_count (st : Store) (f : Filter) : Result JS.value :=
  match f with
  | BySerie i => countBooksBySerie st i
  | ByAuthor i => countBooksByAuthor st i
  | ByTag sa t => countBooksWithTags st sa t
  | ByCC n sa i => countBooksWithCC st n sa i
  | BySearch sa => countBooks st sa
  end.

Definition store_find (st : Store) (f : Filter) (sort : string)
    (limit offset : JS.number) : Result (list Book) :=
  match f with
  | BySerie i => findBooksBySerie st i sort limit offset
  | ByAuthor i => findBooksByAuthor st i sort limit offset
  | ByTag sa t => findBooksWithTags st sa sort t limit offset
  | ByCC n sa i => findBooksWithCC st n sa sort i limit offset
  | BySearch sa => findBooks st sa sort limit offset
  end.

(** The filter a request resolves to, if any, for the request type
    [type]. *)
Definition activeFilter (type : option string) (o : Req.Options) : option Filter :=
  if is_case type "serie" then Some (BySerie (numField (Req.serieId o)))
  else if is_case type "author" then Some (ByAuthor (numField (Req.authorsId o)))
  else
      let sa := searchField (Req.searchString o) in
      let tagId := numField (Req.tagId o) in
      let ccNum := numField (Req.ccNum o) in
      match guarded_precedence tagId ccNum with
      | Some Tag => Some (ByTag sa tagId)
      | Some CustomColumn => Some (ByCC ccNum sa (numField (Req.ccId o)))
      | Some Plain => Some (BySearch sa)
      | _ => None
      end.

(** A single quote occurs in the string. *)
Definition has_quote (l : Tokenizer.chars) : bool :=
  existsb (fun c => (N_of_ascii c =? 39)%N) l.

(** The string starts or ends with a separator. *)
Definition separator_at_end (l : Tokenizer.chars) : bool :=
  match head l with Some c => Tokenizer.is_separator c | None => false end
  || match last l with Some c => Tokenizer.is_separator c | None => false end.

(** The two thumbnail profiles. *)
Inductive Profile := list_profile | detail_profile.

Definition leadingDigit (p : Profile) : string :=
  match p with list_profile => "1" | detail_profile => "0" end.

Definition geometry (p : Profile) : ResizeData :=
  match p with list_profile => Height 250 | detail_profile => Width 320 end.

Definition coverAction (p : Profile) (cfg : Config) (st : Store) (id : JS.number)
  : M unit :=
  match p with
  | list_profile => coverListAction cfg st id
  | detail_profile => coverBookAction cfg st id
  end.

(** The shard as the specification words it: the item id zero-padded
    to five digits, then its two most significant digits. *)
Definition zero_pad (n : nat) (l : list ascii) : list ascii :=
  replicate (n - length l) "0"%char ++ l.

Definition worded_shard (id : N) : string :=
  string_of_list_ascii (take 2 (zero_pad 5 (list_ascii_of_string (pretty id)))).

(** [k] decimal digits of [m], least significant last. *)
Fixpoint fixed (k : nat) (m : N) : list ascii :=
  match k with
  | O => []
  | S k' => fixed k' (m / 10)%N ++ [pretty_N_char (m mod 10)%N]
  end.

(** The characters the decimal conversion puts in front of its
    accumulator. *)
Definition digits (x : N) : list ascii := list_ascii_of_string (pretty_N_go x "").

(** The last [k] elements of a list. *)
Definition lastn (k : nat) (l : list ascii) : list ascii :=
  drop (length l - k) l.

(** *** A configuration and a small catalogue for examples *)

Definition example_config : Config :=
  {| BOOKDIR := "/books"; IMGCACHE := "./Cache"; PAGE_LIMIT_env := JS.NaN |}.

Definition example_book (id : Z) : Book :=
  {| bookId := id; title := "Book"; pubdate := Some "2001-01-01";
     authors := None; formats := None; serie := None; tags := None;
     publisher := None |}.

(** [limit] rows from position [offset]; nothing for an offset or a
    limit that is negative or not a number. *)
Definition window (rows : list Book) (limit offset : JS.number) : list Book :=
  match limit, offset with
  | JS.Num l, JS.Num o =>
      if (o <? 0)%Z || (l <? 0)%Z then []
      else take (Z.to_nat l) (drop (Z.to_nat o) rows)
  | _, _ => []
  end.

(** A store in which every filter selects the same [rows] and every
    count query answers [count]. *)
Definition example_store (count : Result JS.value) (rows : list Book)
    (cover : option CoverData) : Store :=
  {| countBooks := fun _ => count;
     findBooks := fun _ _ l o => Ok (window rows l o);
     countBooksWithTags := fun _ _ => count;
     findBooksWithTags := fun _ _ _ l o => Ok (window rows l o);
     countBooksWithCC := fun _ _ _ => count;
     findBooksWithCC := fun _ _ _ _ l o => Ok (window rows l o);
     countBooksBySerie := fun _ => count;
     findBooksBySerie := fun _ _ l o => Ok (window rows l o);
     countBooksByAuthor := fun _ => count;
     findBooksByAuthor := fun _ _ l o => Ok (window rows l o);
     getAuthorsOfBooks := fun _ => Ok [];
     getFormatsOfBooks := fun _ => Ok [];
     getSeriesOfBooks := fun _ => Ok [];
     getTagsOfBooks := fun _ => Ok [];
     getPublisherOfBooks := fun _ => Ok None;
     getCustomColumnOfBooks := fun _ _ => Ok [];
     getBook := fun _ => Ok (head rows);
     getCoverData := fun _ => Ok cover |}.

Definition three_books : list Book :=
  [example_book 11; example_book 12; example_book 13].

(** A request for the second book of a listing filtered by tag 5,
    with custom column 3 given as well. *)
Definition example_options : Req.Options :=
  {| Req.page := JS.Undefined; Req.sortString := Some "title";
     Req.type := None; Req.searchString := Some "Harry Potter";
     Req.tagId := JS.Number (JS.Num 5); Req.ccNum := JS.Number (JS.Num 3);
     Req.ccId := JS.Undefined; Req.serieId := JS.Undefined;
     Req.authorsId := JS.Undefined; Req.bookId := JS.Number (JS.Num 12);
     Req.num := JS.Number (JS.Num 2) |}.

(** A catalogue of 95 books and a request for page 10 of it. *)
Definition ninety_five_books : list Book :=
  map (fun i => example_book (Z.of_nat i)) (seq 1 95).

Definition page_10_options : Req.Options :=
  {| Req.page := JS.Number (JS.Num 10); Req.sortString := None;
     Req.type := None; Req.searchString := None; Req.tagId := JS.Undefined;
     Req.ccNum := JS.Undefined; Req.ccId := JS.Undefined;
     Req.serieId := JS.Undefined; Req.authorsId := JS.Undefined;
     Req.bookId := JS.Undefined; Req.num := JS.Undefined |}.

Definition example_cover : CoverData :=
  {| cover_path := "Rowling/Stone (42)"; cover_bookId := 42 |}.

(** A library folder that holds the cover of book 42, and an empty
    thumbnail cache. *)
Definition example_world : World :=
  initial {[ "/books/Rowling/Stone (42)/cover.jpg" := Original "stone" ]} ∅.

End Spec.

(** ** Vocabulary for further properties *)

Module Props.
Import Catalog Eff Controller Spec.

(** A store call that returns. *)
Definition answers {A} (r : Result A) : Prop := exists a, r = Ok a.

(** A store none of whose queries throws. *)
Record never_throws (st : Store) : Prop := {
  nt_countBooks : forall sa, answers (countBooks st sa);
  nt_findBooks : forall sa s l o, answers (findBooks st sa s l o);
  nt_countBooksWithTags : forall sa t, answers (countBooksWithTags st sa t);
  nt_findBooksWithTags : forall sa s t l o, answers (findBooksWithTags st sa s t l o);
  nt_countBooksWithCC : forall n sa i, answers (countBooksWithCC st n sa i);
  nt_findBooksWithCC : forall n sa s i l o, answers (findBooksWithCC st n sa s i l o);
  nt_countBooksBySerie : forall i, answers (countBooksBySerie st i);
  nt_findBooksBySerie : forall i s l o, answers (findBooksBySerie st i s l o);
  nt_countBooksByAuthor : forall i, answers (countBooksByAuthor st i);
  nt_findBooksByAuthor : forall i s l o, answers (findBooksByAuthor st i s l o);
  nt_getAuthorsOfBooks : forall ids, answers (getAuthorsOfBooks st ids);
  nt_getFormatsOfBooks : forall ids, answers (getFormatsOfBooks st ids);
  nt_getSeriesOfBooks : forall ids, answers (getSeriesOfBooks st ids);
  nt_getTagsOfBooks : forall ids, answers (getTagsOfBooks st ids);
  nt_getPublisherOfBooks : forall i, answers (getPublisherOfBooks st i);
  nt_getCustomColumnOfBooks : forall c i, answers (getCustomColumnOfBooks st c i);
  nt_getBook : forall i, answers (getBook st i);
  nt_getCoverData : forall i, answers (getCoverData st i)
}.

(** A computation that writes nothing to the response. *)
Definition silent {A} (m : M A) : Prop :=
  forall w, responses (m w).2 = responses w.

(** A computation that returns and writes nothing to the response. *)
Definition quietly {A} (m : M A) : Prop :=
  forall w, exists a w', m w = (Ok a, w') /\ responses w' = responses w.


(** [Math.ceil(count / PAGE_LIMIT) - 1] on integers. *)
Definition last_page (cfg : Config) (count : Z) : Z :=
  (- ((- count) / PAGE_LIMIT cfg) - 1)%Z.

(** A page brought into [0, last_page]. *)
Definition clamped (cfg : Config) (count page : Z) : Z :=
  Z.max 0 (Z.min page (last_page cfg count)).

(** The id argument [addFields] builds for a page of books. *)
Definition bookIdString (l : list Book) : IdArg :=
  IdString (String.concat "," (map (fun b => pretty (bookId b)) l)).

(** The four lookups of related rows, in the order [addFields] makes them. *)
Definition lookups (ids : IdArg) : list Query :=
  [QgetAuthorsOfBooks ids; QgetFormatsOfBooks ids; QgetSeriesOfBooks ids;
   QgetTagsOfBooks ids].

(** The string holds the separator [|] of multi-value fields. *)
Definition has_bar (s : string) : bool :=
  existsb (Ascii.eqb "|") (list_ascii_of_string s).

(** The fields [addFields] attaches to [b'], computed from the store's
    rows for the book [b]. *)
Definition enriched (arows : list AuthorRow) (frows : list FormatRow)
    (srows : list SerieRow) (trows : list TagRow) (b b' : Book) : Prop :=
  bookId b' = bookId b /\ title b' = title b /\ pubdate b' = pubdate b /\
  publisher b' = publisher b /\
  authors b' = Some (map decode_author
                  (List.filter (fun a => (author_bookId a =? bookId b)%Z) arows)) /\
  formats b' = Some (map (fun f => decode (format_name f))
                  (List.filter (fun f => (format_bookId f =? bookId b)%Z) frows)) /\
  tags b' = Some (TagNames (map (fun t => decode (tagName t))
               (List.filter (fun t => (tag_bookId t =? bookId b)%Z) trows))) /\
  serie b' = match List.find (fun s => (serie_bookId s =? bookId b)%Z) srows with
             | Some s => Some (decode_serie s)
             | None => serie b
             end.

(** A character a token can hold: not of the punctuation class, not
    the alternate word separator, and its own lower case. *)
Definition token_char (c : ascii) : Prop :=
  Tokenizer.in_whitespace_chars c = false /\
  (N_of_ascii c =? 172)%N = false /\
  Tokenizer.lower_char c = c.

(** A string of the controller's character model, from its characters. *)
Definition of_chars (l : Tokenizer.chars) : string := string_of_list_ascii l.

(** The cache path of the thumbnail of a book for a profile. *)
Definition thumbnail_path (cfg : Config) (p : Profile) (id : Z) : string :=
  cacheDir cfg (leadingDigit p) id +:+ "/" +:+ cacheFile id.

Definition action_name (p : Profile) : string :=
  match p with
  | list_profile => "coverListAction"
  | detail_profile => "coverBookAction"
  end.

(** An option that, when it is a number, is at most [2 ^ 53 - 2] in
    magnitude: adding or subtracting 1 or 2 is then exact in doubles. *)
Definition exact_integer (v : JS.value) : Prop :=
  forall z, v = JS.Number (JS.Num z) -> (Z.abs z <= 2 ^ 53 - 2)%Z.

(** A number a double holds exactly: at most [2 ^ 53] in magnitude. *)
Definition exact_number (n : JS.number) : Prop :=
  forall z, n = JS.Num z -> (Z.abs z <= 2 ^ 53)%Z.


(** The same for a book-detail request, where [searchString] is read
    only by a request with a position. *)
Definition book_body_accepted (body : Request.Body) : bool :=
  match body with
  | Request.NoBody => true
  | Request.NotJSON _ | Request.JSONnull => false
  | Request.Fields o other =>
      negb (other && Request.has_position o && Request.reads_searchString (Req.type o))
  end.

(** The example request, with the position 10^21. *)
Definition position_1e21_options : Req.Options :=
  {| Req.page := JS.Undefined; Req.sortString := Some "title";
     Req.type := None; Req.searchString := Some "Harry Potter";
     Req.tagId := JS.Number (JS.Num 5); Req.ccNum := JS.Number (JS.Num 3);
     Req.ccId := JS.Undefined; Req.serieId := JS.Undefined;
     Req.authorsId := JS.Undefined; Req.bookId := JS.Number (JS.Num 12);
     Req.num := JS.Number (JS.Num (10 ^ 21)) |}.

(** An exception message in two lines. *)
Definition line_break_message : string :=
  "disk I/O error" +:+ String (ascii_of_N 10) "code 10".

(** The example store, with a cover-data query that throws. *)
Definition failing_cover_store (e : Error) : Store :=
  let st := example_store (Ok (JS.Number (JS.Num 3))) three_books None in
  {| countBooks := countBooks st; findBooks := findBooks st;
     countBooksWithTags := countBooksWithTags st;
     findBooksWithTags := findBooksWithTags st;
     countBooksWithCC := countBooksWithCC st; findBooksWithCC := findBooksWithCC st;
     countBooksBySerie := countBooksBySerie st; findBooksBySerie := findBooksBySerie st;
     countBooksByAuthor := countBooksByAuthor st;
     findBooksByAuthor := findBooksByAuthor st;
     getAuthorsOfBooks := getAuthorsOfBooks st; getFormatsOfBooks := getFormatsOfBooks st;
     getSeriesOfBooks := getSeriesOfBooks st; getTagsOfBooks := getTagsOfBooks st;
     getPublisherOfBooks := getPublisherOfBooks st;
     getCustomColumnOfBooks := getCustomColumnOfBooks st;
     getBook := getBook st;
     getCoverData := fun _ => Throw e |}.

End Props.

(** * Properties *)

Import Catalog Eff Controller Spec.

(** ** Page navigation *)

Lemma PAGE_LIMIT_nonzero cfg : PAGE_LIMIT cfg <> 0%Z.
Proof.
  unfold PAGE_LIMIT. destruct (PAGE_LIMIT_env cfg) as [|z]; [lia|].
  destruct (Z.eqb_spec z 0); lia.
Qed.

Lemma PAGE_LIMIT_example : PAGE_LIMIT example_config = 30%Z.
Proof. reflexivity. Qed.

(** C7: when the total count does not exceed the page size, the page
    navigation carries only [size = count]; no link is produced,
    whatever the requested page. *)
Theorem single_page_has_no_links cfg (page : JS.number) (count : Z) :
  (count <= PAGE_LIMIT cfg)%Z ->
  Nav.getPageNavigation cfg page (JS.Number (JS.Num count)) =
    {| Nav.size := JS.Number (JS.Num count); Nav.currentpage := None;
       Nav.firstpage := None; Nav.prevpage := None;
       Nav.nextpage := None; Nav.lastpage := None |}.
Proof.
  intros Hle. unfold Nav.getPageNavigation. simpl.
  destruct (Z.leb_spec count (PAGE_LIMIT cfg)); [reflexivity | lia].
Qed.

Lemma single_page_has_no_links_witness :
  (12 <= PAGE_LIMIT example_config)%Z /\
  Nav.getPageNavigation example_config (JS.Num 4) (JS.Number (JS.Num 12)) =
    {| Nav.size := JS.Number (JS.Num 12); Nav.currentpage := None;
       Nav.firstpage := None; Nav.prevpage := None;
       Nav.nextpage := None; Nav.lastpage := None |}.
Proof.
  split; [vm_compute; discriminate |].
  apply (single_page_has_no_links example_config (JS.Num 4) 12).
  vm_compute; discriminate.
Defined.

(** C2, as worded, fails: with 95 books, pages of 30 and page 10
    requested, the page is not clamped to 2. *)
Lemma page_10_of_95_is_not_page_2 :
  ~ (let nav := Nav.getPageNavigation example_config (JS.Num 10) (JS.Number (JS.Num 95)) in
     Nav.currentpage nav = Some (JS.Num 2) /\
     Nav.lastpage nav = Some (Nav.enabled (Nav.LNum (JS.Num 2)))).
Proof. vm_compute. intros [H _]. discriminate H. Qed.

(** C2, amended: with 95 books, pages of 30 and page 10 requested, the
    page is clamped to the last page 3 = ceil(95/30) - 1; the first and
    previous links are enabled (to "0" and to 2), the next link is
    disabled and the last link is enabled at page 3. *)
Theorem page_10_of_95_is_page_3 cfg :
  PAGE_LIMIT cfg = 30%Z ->
  Nav.getPageNavigation cfg (JS.Num 10) (JS.Number (JS.Num 95)) =
    {| Nav.size := JS.Number (JS.Num 95);
       Nav.currentpage := Some (JS.Num 3);
       Nav.firstpage := Some (Nav.enabled (Nav.LStr "0"));
       Nav.prevpage := Some (Nav.enabled (Nav.LNum (JS.Num 2)));
       Nav.nextpage := Some Nav.disabled;
       Nav.lastpage := Some (Nav.enabled (Nav.LNum (JS.Num 3))) |}.
Proof.
  intros H. unfold Nav.getPageNavigation. rewrite H. reflexivity.
Qed.

Lemma page_10_of_95_is_page_3_witness :
  PAGE_LIMIT example_config = 30%Z /\
  Nav.currentpage
    (Nav.getPageNavigation example_config (JS.Num 10) (JS.Number (JS.Num 95)))
  = Some (JS.Num 3).
Proof.
  split; [reflexivity |].
  rewrite (page_10_of_95_is_page_3 example_config); reflexivity.
Defined.

(** ** The tokenizer *)

Section TokenizerFacts.
Import Tokenizer.

Lemma spec_collapse_head c l :
  in_whitespace_chars c = true ->
  exists r, spec_collapse (c :: l) = space :: r.
Proof.
  revert c. induction l as [|c' l IH]; intros c Hc; simpl; rewrite Hc.
  - eauto.
  - destruct (in_whitespace_chars c') eqn:Hc'.
    + destruct (IH c' Hc') as [r Hr]. simpl in Hr. rewrite Hc' in Hr. eauto.
    + eauto.
Qed.

Lemma replace_runs_spec_collapse l :
  replace_runs false l = spec_collapse l /\
  replace_runs true l =
    match l with
    | c :: _ => if in_whitespace_chars c then tail (spec_collapse l) else spec_collapse l
    | [] => []
    end.
Proof.
  induction l as [|c l [IH1 IH2]]; [split; reflexivity|].
  destruct (in_whitespace_chars c) eqn:Hc.
  - destruct l as [|c' l].
    + simpl. rewrite Hc. split; reflexivity.
    + change (replace_runs false (c :: c' :: l))
        with (if in_whitespace_chars c then space :: replace_runs true (c' :: l)
              else c :: replace_runs false (c' :: l)).
      change (replace_runs true (c :: c' :: l))
        with (if in_whitespace_chars c then replace_runs true (c' :: l)
              else c :: replace_runs false (c' :: l)).
      change (spec_collapse (c :: c' :: l))
        with (if in_whitespace_chars c
              then (if in_whitespace_chars c' then spec_collapse (c' :: l)
                    else space :: spec_collapse (c' :: l))
              else c :: spec_collapse (c' :: l)).
      rewrite Hc, IH2.
      destruct (in_whitespace_chars c') eqn:Hc'.
      * destruct (spec_collapse_head c' l Hc') as [r Hr]. rewrite Hr.
        split; reflexivity.
      * split; reflexivity.
  - simpl. rewrite Hc, IH1. split; reflexivity.
Qed.

Lemma split_nonempty l : split l <> [].
Proof.
  destruct l as [|c l]; simpl; [discriminate|].
  destruct (N_of_ascii c =? 32)%N; [discriminate|].
  destruct (split l); discriminate.
Qed.

Lemma spec_split_go_split l : forall cur,
  spec_split_go cur l =
    match split l with
    | t :: ts => (rev cur ++ t) :: ts
    | [] => [rev cur]
    end.
Proof.
  induction l as [|c l IH]; intros cur; simpl.
  - rewrite app_nil_r. reflexivity.
  - destruct (N_of_ascii c =? 32)%N.
    + rewrite app_nil_r, IH. simpl.
      destruct (split l) eqn:E; [destruct (split_nonempty l E) | reflexivity].
    + rewrite IH. simpl.
      destruct (split l) as [|t ts]; simpl; rewrite <- ?app_assoc; reflexivity.
Qed.

Lemma spec_pipeline_after_trim l :
  split (normalize l) = spec_pipeline (trim l).
Proof.
  unfold spec_pipeline, normalize, replace_whitespace_chars.
  rewrite spec_split_go_split.
  rewrite (proj1 (replace_runs_spec_collapse _)).
  destruct (split _) eqn:E; [destruct (split_nonempty _ E) | reflexivity].
Qed.

End TokenizerFacts.

(** C8, as worded, fails: the tokenizer trims its input first, which the
    worded pipeline does not, so the two differ on a string that starts
    with a blank. *)
Lemma tokenizer_differs_from_worded_pipeline :
  Tokenizer.searchStringToArray " harry" <> Tokenizer.spec_tokenize " harry".
Proof. vm_compute. discriminate. Qed.

(** C8, amended: for every input string the tokenizer equals the
    pipeline: trim leading and trailing white space, lowercase, turn the
    alternate word separator into a space, collapse the punctuation and
    white-space class to single spaces, double the single quotes, split
    on spaces.  "Harry Potter" gives the tokens "harry" and "potter", and
    the empty string gives one empty token. *)
Theorem tokenizer_is_trim_then_pipeline :
  (forall s : string,
     Tokenizer.searchStringToArray s =
       map string_of_list_ascii
         (Tokenizer.spec_pipeline (Tokenizer.trim (list_ascii_of_string s)))) /\
  Tokenizer.searchStringToArray "Harry Potter" = ["harry"; "potter"] /\
  Tokenizer.searchStringToArray "" = [""].
Proof.
  split; [| split; reflexivity].
  intros s. unfold Tokenizer.searchStringToArray.
  rewrite spec_pipeline_after_trim. reflexivity.
Qed.

Section TokenizerIdempotence.
Import Tokenizer.

(** Facts about single characters, by enumeration of the 256 codes. *)
Ltac by_cases_on_char c :=
  destruct c as [[] [] [] [] [] [] [] []]; vm_compute; intros; repeat split; intros; congruence.

Lemma lower_char_idem c : lower_char (lower_char c) = lower_char c.
Proof. by_cases_on_char c. Qed.

Lemma lower_char_quote c :
  (N_of_ascii (lower_char c) =? 39)%N = (N_of_ascii c =? 39)%N.
Proof. by_cases_on_char c. Qed.

Lemma word_char_stays c :
  is_separator c = false -> is_trim_space c = false ->
  sep01 (lower_char c) = lower_char c /\
  in_whitespace_chars (lower_char c) = false /\
  is_trim_space (lower_char c) = false.
Proof. by_cases_on_char c. Qed.

Lemma sep01_facts c :
  lower_char (sep01 (lower_char c)) = sep01 (lower_char c) /\
  (N_of_ascii (sep01 (lower_char c)) =? 172)%N = false /\
  ((N_of_ascii c =? 39)%N = false ->
   (N_of_ascii (sep01 (lower_char c)) =? 39)%N = false).
Proof. by_cases_on_char c. Qed.

Lemma code_32_is_space c : (N_of_ascii c =? 32)%N = true -> c = space.
Proof. by_cases_on_char c. Qed.

(** Splitting and joining. *)
Lemma join_cons t ts : ts <> [] -> join (t :: ts) = t ++ space :: join ts.
Proof. destruct ts; [congruence | reflexivity]. Qed.

Lemma join_split l : join (split l) = l.
Proof.
  induction l as [|c l IH]; [reflexivity|]. simpl.
  destruct (N_of_ascii c =? 32)%N eqn:E.
  - rewrite join_cons by apply split_nonempty.
    rewrite IH, (code_32_is_space c E). reflexivity.
  - destruct (split l) as [|t ts] eqn:Es; [destruct (split_nonempty l Es)|].
    destruct ts as [|t' ts]; simpl in *; rewrite <- IH; reflexivity.
Qed.

Lemma list_ascii_of_string_app a b :
  list_ascii_of_string (a +:+ b) = list_ascii_of_string a ++ list_ascii_of_string b.
Proof. induction a as [|c a IH]; simpl; [reflexivity | rewrite IH; reflexivity]. Qed.

Lemma join_tokens_chars ts :
  list_ascii_of_string (join_tokens (map string_of_list_ascii ts)) = join ts.
Proof.
  unfold join_tokens.
  induction ts as [|t ts IH]; [reflexivity|].
  destruct ts as [|t' ts].
  - simpl. apply list_ascii_of_string_of_list_ascii.
  - change (String.concat " " (map string_of_list_ascii (t :: t' :: ts)))
      with (string_of_list_ascii t +:+ " " +:+
            String.concat " " (map string_of_list_ascii (t' :: ts))).
    rewrite !list_ascii_of_string_app, IH, list_ascii_of_string_of_list_ascii.
    reflexivity.
Qed.

(** Replacing the runs of class characters twice changes nothing more. *)
Lemma in_whitespace_chars_space : in_whitespace_chars space = true.
Proof. reflexivity. Qed.

Lemma replace_runs_idem l :
  replace_runs false (replace_runs false l) = replace_runs false l /\
  replace_runs true (replace_runs true l) = replace_runs true l.
Proof.
  induction l as [|c l [IH1 IH2]]; [split; reflexivity|].
  simpl. destruct (in_whitespace_chars c) eqn:Hc.
  - split; [|exact IH2]. simpl. rewrite ?in_whitespace_chars_space, IH2. reflexivity.
  - simpl. rewrite Hc, IH1. split; reflexivity.
Qed.

Lemma replace_runs_Forall (P : ascii -> Prop) b l :
  P space -> Forall P l -> Forall P (replace_runs b l).
Proof.
  intros Hs Hl. revert b. induction Hl as [|c l Hc Hl IH]; intros b; simpl.
  - constructor.
  - destruct (in_whitespace_chars c); [destruct b|]; repeat constructor; auto.
Qed.

Lemma replace_runs_last l : forall b c,
  last l = Some c -> in_whitespace_chars c = false ->
  last (replace_runs b l) = Some c.
Proof.
  induction l as [|c0 l IH]; intros b c Hl Hc; [discriminate|].
  destruct l as [|c1 l].
  - simpl in Hl. injection Hl as ->. simpl. rewrite Hc. reflexivity.
  - change (last (c0 :: c1 :: l)) with (last (c1 :: l)) in Hl.
    assert (forall b' y, last (y :: replace_runs b' (c1 :: l)) = Some c) as Hy.
    { intros b' y. specialize (IH b' c Hl Hc).
      destruct (replace_runs b' (c1 :: l)); [discriminate | exact IH]. }
    change (replace_runs b (c0 :: c1 :: l))
      with (if in_whitespace_chars c0
            then (if b then replace_runs true (c1 :: l)
                  else space :: replace_runs true (c1 :: l))
            else c0 :: replace_runs false (c1 :: l)).
    destruct (in_whitespace_chars c0); [destruct b|]; auto.
Qed.

(** Trimming. *)
Lemma trimStart_head l c : head (trimStart l) = Some c -> is_trim_space c = false.
Proof.
  induction l as [|c0 l IH]; simpl; [discriminate|].
  destruct (is_trim_space c0) eqn:E; [exact IH|].
  simpl. intros [= <-]. exact E.
Qed.

Lemma trimEnd_head l c : head (trimEnd l) = Some c -> head l = Some c.
Proof.
  destruct l as [|c0 l]; simpl; [discriminate|].
  destruct (trimEnd l); [destruct (is_trim_space c0)|]; simpl; congruence.
Qed.

Lemma trimEnd_last l c : last (trimEnd l) = Some c -> is_trim_space c = false.
Proof.
  induction l as [|c0 l IH]; simpl; [discriminate|].
  destruct (trimEnd l) as [|c1 r] eqn:E.
  - destruct (is_trim_space c0) eqn:E0; simpl; [discriminate|].
    intros [= <-]. exact E0.
  - change (last (c0 :: c1 :: r)) with (last (c1 :: r)). exact IH.
Qed.

Lemma trimEnd_fixed l :
  match last l with Some c => is_trim_space c = false | None => True end ->
  trimEnd l = l.
Proof.
  induction l as [|c0 l IH]; [reflexivity|].
  destruct l as [|c1 l].
  - simpl. intros ->. reflexivity.
  - change (last (c0 :: c1 :: l)) with (last (c1 :: l)). intros H.
    change (trimEnd (c0 :: c1 :: l))
      with (match trimEnd (c1 :: l) with
            | [] => if is_trim_space c0 then [] else [c0]
            | r => c0 :: r
            end).
    rewrite (IH H). reflexivity.
Qed.

Lemma trim_fixed l :
  match head l with Some c => is_trim_space c = false | None => True end ->
  match last l with Some c => is_trim_space c = false | None => True end ->
  trim l = l.
Proof.
  intros Hh Hl. unfold trim.
  assert (trimStart l = l) as ->; [|apply trimEnd_fixed; exact Hl].
  destruct l as [|c l]; [reflexivity|]. simpl in *. rewrite Hh. reflexivity.
Qed.

Lemma map_fixed (f : ascii -> ascii) l : Forall (fun c => f c = c) l -> map f l = l.
Proof. induction 1; simpl; congruence. Qed.

Lemma double_quotes_fixed l :
  Forall (fun c => (N_of_ascii c =? 39)%N = false) l -> double_quotes l = l.
Proof. induction 1 as [|c l Hc _ IH]; simpl; [reflexivity|]. rewrite Hc, IH. reflexivity. Qed.

Lemma last_map (f : ascii -> ascii) l : last (map f l) = option_map f (last l).
Proof.
  induction l as [|c l IH]; [reflexivity|].
  destruct l as [|c' l]; [reflexivity|]. exact IH.
Qed.

Lemma collapsed_chars l :
  Forall (fun c => (N_of_ascii c =? 39)%N = false) l ->
  Forall (fun c => lower_char c = c /\ (N_of_ascii c =? 172)%N = false
                   /\ (N_of_ascii c =? 39)%N = false) (collapsed l).
Proof.
  intros H. unfold collapsed, replace_whitespace_chars.
  apply replace_runs_Forall; [repeat split|].
  unfold replace_char01, toLowerCase. rewrite map_map.
  induction H as [|c l Hc _ IH]; simpl; constructor; [|exact IH].
  destruct (sep01_facts c) as (A & B & C). unfold sep01 in *. auto.
Qed.

Lemma collapsed_ends l :
  match head l with
  | Some c => is_separator c = false /\ is_trim_space c = false
  | None => True
  end ->
  match last l with
  | Some c => is_separator c = false /\ is_trim_space c = false
  | None => True
  end ->
  trim (collapsed l) = collapsed l.
Proof.
  intros Hh Hl. apply trim_fixed.
  - destruct l as [|c l]; [exact I|]. simpl in Hh. destruct Hh as [Hs Ht].
    destruct (word_char_stays c Hs Ht) as (A & B & C).
    unfold collapsed, replace_whitespace_chars. simpl.
    fold (sep01 (lower_char c)). rewrite A, B. simpl. exact C.
  - destruct (last l) as [c|] eqn:E.
    + destruct Hl as [Hs Ht].
      destruct (word_char_stays c Hs Ht) as (A & B & C).
      unfold collapsed, replace_whitespace_chars.
      rewrite (replace_runs_last _ false (lower_char c)); [exact C| |exact B].
      unfold replace_char01, toLowerCase. rewrite !last_map, E. simpl.
      fold (sep01 (lower_char c)). rewrite A. reflexivity.
    + destruct l as [|c l]; [exact I|].
      exfalso. clear -E. revert c E.
      induction l as [|c' l IH]; intros c E; [discriminate|]. exact (IH c' E).
Qed.

Lemma normalize_idem l :
  has_quote (trim l) = false -> separator_at_end (trim l) = false ->
  normalize (normalize l) = normalize l.
Proof.
  intros Hq He.
  assert (Forall (fun c => (N_of_ascii c =? 39)%N = false) (trim l)) as Hq'.
  { unfold has_quote in Hq. clear He.
    induction (trim l) as [|c t IH]; [constructor|]. simpl in Hq.
    apply orb_false_iff in Hq as [? ?]. constructor; auto. }
  apply orb_false_iff in He as [Hh Hl].
  pose proof (collapsed_chars _ Hq') as Hc.
  assert (normalize l = collapsed (trim l)) as Hn.
  { unfold normalize. fold (collapsed (trim l)). apply double_quotes_fixed.
    eapply Forall_impl; [exact Hc|]. simpl. tauto. }
  rewrite Hn. unfold normalize.
  rewrite collapsed_ends.
  - assert (toLowerCase (collapsed (trim l)) = collapsed (trim l)) as ->.
    { apply map_fixed. eapply Forall_impl; [exact Hc|]. simpl. tauto. }
    assert (replace_char01 (collapsed (trim l)) = collapsed (trim l)) as ->.
    { unfold replace_char01. apply map_fixed.
      eapply Forall_impl; [exact Hc|]. simpl. intros c (_ & -> & _). reflexivity. }
    assert (replace_whitespace_chars (collapsed (trim l)) = collapsed (trim l)) as ->.
    { unfold collapsed, replace_whitespace_chars. apply replace_runs_idem. }
    apply double_quotes_fixed. eapply Forall_impl; [exact Hc|]. simpl. tauto.
  - destruct (head (trim l)) as [c|] eqn:E; [|exact I]. split; [exact Hh|].
    unfold trim in E. apply trimEnd_head in E. eapply trimStart_head, E.
  - destruct (last (trim l)) as [c|] eqn:E; [|exact I]. split; [exact Hl|].
    unfold trim in E. eapply trimEnd_last, E.
Qed.

End TokenizerIdempotence.

(** C9, as worded, fails: a single quote is doubled again on each pass. *)
Lemma tokenizer_not_idempotent_on_quote :
  Tokenizer.searchStringToArray
    (Tokenizer.join_tokens (Tokenizer.searchStringToArray "o'neil"))
  <> Tokenizer.searchStringToArray "o'neil".
Proof. vm_compute. discriminate. Qed.

(** C9, amended: for every search string that contains no single quote
    and whose trimmed form neither starts nor ends with a separator (the
    alternate word separator or a character of the punctuation class),
    tokenizing the space-join of its tokens gives the same tokens. *)
Theorem tokenizer_idempotent_on_clean_strings (s : string) :
  has_quote (Tokenizer.trim (list_ascii_of_string s)) = false ->
  separator_at_end (Tokenizer.trim (list_ascii_of_string s)) = false ->
  Tokenizer.searchStringToArray
    (Tokenizer.join_tokens (Tokenizer.searchStringToArray s))
  = Tokenizer.searchStringToArray s.
Proof.
  intros Hq He. unfold Tokenizer.searchStringToArray at 1 2.
  rewrite join_tokens_chars, join_split, normalize_idem by assumption.
  reflexivity.
Qed.

Lemma tokenizer_idempotent_on_clean_strings_witness :
  Tokenizer.searchStringToArray
    (Tokenizer.join_tokens (Tokenizer.searchStringToArray "  Harry, Potter (2001) edition "))
  = Tokenizer.searchStringToArray "  Harry, Potter (2001) edition ".
Proof.
  apply (tokenizer_idempotent_on_clean_strings "  Harry, Potter (2001) edition ");
    vm_compute; reflexivity.
Defined.

(** ** The thumbnail cache path *)

Section ShardFacts.

Lemma pretty_Z_of_N (n : N) : pretty (Z.of_N n) = pretty n.
Proof. destruct n; reflexivity. Qed.

Lemma pretty_N_go_chars x : forall s,
  list_ascii_of_string (pretty_N_go x s) = digits x ++ list_ascii_of_string s.
Proof.
  induction (N.lt_wf_0 x) as [x _ IH]; intros s.
  destruct (N.eq_dec x 0%N) as [-> | Hx].
  - rewrite pretty_N_go_0. reflexivity.
  - unfold digits. rewrite !(pretty_N_go_step x) by lia.
    assert (x / 10 < x)%N as Hlt by (apply N.div_lt; lia).
    rewrite !(IH _ Hlt). simpl. rewrite <- app_assoc. reflexivity.
Qed.

Lemma digits_0 : digits 0%N = [].
Proof. reflexivity. Qed.

Lemma digits_step x :
  (0 < x)%N -> digits x = digits (x / 10) ++ [pretty_N_char (x mod 10)].
Proof.
  intros Hx. unfold digits at 1. rewrite pretty_N_go_step by exact Hx.
  apply pretty_N_go_chars.
Qed.

Lemma pretty_N_chars x :
  (0 < x)%N -> list_ascii_of_string (pretty x) = digits x.
Proof.
  intros Hx. unfold pretty, pretty_N.
  destruct (decide (x = 0%N)); [lia | reflexivity].
Qed.

Lemma lastn_snoc k l c : lastn (S k) (l ++ [c]) = lastn k l ++ [c].
Proof.
  unfold lastn. rewrite length_app. simpl.
  replace (length l + 1 - S k) with (length l - k) by lia.
  apply drop_app_le. lia.
Qed.

Lemma lastn_zeros k n :
  (k <= n)%nat -> lastn k (replicate n "0"%char) = replicate k "0"%char.
Proof.
  intros H. unfold lastn. rewrite length_replicate, drop_replicate.
  f_equal. lia.
Qed.

Lemma fixed_zero k : fixed k 0%N = replicate k "0"%char.
Proof.
  induction k as [|k IH]; [reflexivity|].
  simpl fixed. change (0 / 10)%N with 0%N. rewrite IH.
  change (pretty_N_char (0 mod 10)) with "0"%char.
  symmetry. apply replicate_S_end.
Qed.

(** In front of enough zeros, the last [k] characters of a decimal
    numeral are its [k] low digits. *)
Lemma lastn_digits k : forall x n,
  (k <= n)%nat -> lastn k (replicate n "0"%char ++ digits x) = fixed k x.
Proof.
  induction k as [|k IH]; intros x n Hn.
  - unfold lastn. rewrite Nat.sub_0_r. apply drop_all.
  - destruct (N.eq_dec x 0%N) as [-> | Hx].
    + rewrite digits_0, app_nil_r, fixed_zero. apply lastn_zeros. exact Hn.
    + rewrite digits_step by lia. rewrite app_assoc, lastn_snoc.
      rewrite IH by lia. reflexivity.
Qed.

Lemma digits_length k : forall x, (x < 10 ^ N.of_nat k)%N -> (length (digits x) <= k)%nat.
Proof.
  induction k as [|k IH]; intros x Hx.
  - assert (x = 0%N) as -> by (simpl in Hx; lia). simpl. lia.
  - destruct (N.eq_dec x 0%N) as [-> | H0]; [simpl; lia|].
    rewrite digits_step by lia. rewrite length_app. simpl.
    assert (x / 10 < 10 ^ N.of_nat k)%N.
    { apply N.Div0.div_lt_upper_bound.
      rewrite Nat2N.inj_succ, N.pow_succ_r' in Hx. exact Hx. }
    specialize (IH _ H). lia.
Qed.

Lemma slice_last_5_chars (id : N) :
  list_ascii_of_string (slice_last 5 ("0000" +:+ pretty (Z.of_N id))) = fixed 5 id.
Proof.
  unfold slice_last. rewrite list_ascii_of_string_of_list_ascii, pretty_Z_of_N.
  destruct (N.eq_dec id 0%N) as [-> | Hx]; [reflexivity|].
  rewrite list_ascii_of_string_app, pretty_N_chars by lia.
  change (list_ascii_of_string "0000") with (replicate 4 "0"%char).
  fold (lastn 5 (replicate 4 "0"%char ++ digits id)).
  rewrite digits_step by lia. rewrite app_assoc, lastn_snoc.
  rewrite lastn_digits by lia. reflexivity.
Qed.

(** The shard is made of the digits of the ten-thousands and of the
    thousands of the id, whatever the number of digits of the id. *)
Lemma shard_digits (id : N) :
  shard (Z.of_N id) =
    string_of_list_ascii
      [pretty_N_char ((id / 10000) mod 10); pretty_N_char ((id / 1000) mod 10)].
Proof.
  unfold shard, substring_0. rewrite slice_last_5_chars.
  cbn [fixed app take]. rewrite !N.Div0.div_div. reflexivity.
Qed.

Lemma zero_pad_digits (id : N) :
  (id < 100000)%N -> zero_pad 5 (list_ascii_of_string (pretty id)) = fixed 5 id.
Proof.
  intros Hlt. destruct (N.eq_dec id 0%N) as [-> | Hx]; [reflexivity|].
  rewrite pretty_N_chars by lia.
  pose proof (digits_length 5 id Hlt) as Hlen.
  rewrite <- (lastn_digits 5 id 5) by lia.
  unfold zero_pad, lastn. rewrite length_app, length_replicate.
  replace (5 + length (digits id) - 5) with (length (digits id)) by lia.
  rewrite drop_app_le by (rewrite length_replicate; lia).
  rewrite drop_replicate. reflexivity.
Qed.

Lemma shard_as_worded (id : N) :
  (id < 100000)%N -> shard (Z.of_N id) = worded_shard id.
Proof.
  intros Hlt. unfold shard, substring_0, worded_shard.
  rewrite slice_last_5_chars, zero_pad_digits by exact Hlt. reflexivity.
Qed.

End ShardFacts.

(** C6, as worded, fails for an id of six digits: the last five
    characters of the padded id are kept, so the shard of 123456 is "23"
    and not the two leading digits "12". *)
Lemma shard_of_six_digit_id :
  shard 123456 = "23" /\ worded_shard 123456 = "12" /\
  cacheDir example_config (leadingDigit list_profile) 123456
    <> IMGCACHE example_config +:+ "/" +:+ leadingDigit list_profile +:+ worded_shard 123456.
Proof. vm_compute. repeat split. discriminate. Qed.

(** C6, amended: for every item id below 100000 and each profile, the
    cache file is named by the id followed by ".jpg", and its directory
    is the cache root, a slash, the leading digit of the profile (1 for
    list, 0 for detail) and the two most significant digits of the id
    zero-padded to five digits.  Id 42 with the list profile gives the
    directory suffix "100" and the file "42.jpg". *)
Theorem cache_path_below_100000 cfg (id : N) (p : Profile) :
  (id < 100000)%N ->
  cacheFile (Z.of_N id) = pretty id +:+ ".jpg" /\
  cacheDir cfg (leadingDigit p) (Z.of_N id)
    = IMGCACHE cfg +:+ "/" +:+ leadingDigit p +:+ worded_shard id /\
  leadingDigit list_profile = "1" /\ leadingDigit detail_profile = "0" /\
  cacheDir cfg (leadingDigit list_profile) 42 = IMGCACHE cfg +:+ "/" +:+ "100" /\
  cacheFile 42 = "42.jpg".
Proof.
  intros Hlt. unfold cacheFile, cacheDir.
  rewrite pretty_Z_of_N, shard_as_worded by exact Hlt.
  repeat split; reflexivity.
Qed.

Lemma cache_path_below_100000_witness :
  (4711 < 100000)%N /\
  cacheFile (Z.of_N 4711) = "4711.jpg" /\
  cacheDir example_config (leadingDigit detail_profile) (Z.of_N 4711) = "./Cache/004".
Proof.
  split; [reflexivity|].
  destruct (cache_path_below_100000 example_config 4711 detail_profile)
    as (Hf & Hd & _); [reflexivity|].
  split; [rewrite Hf | rewrite Hd]; reflexivity.
Defined.

(** ** Running the controller *)

Section MonadFacts.

Lemma bind_ok {A B} (m : M A) (f : A -> M B) w a w' :
  m w = (Ok a, w') -> (m ≫= f) w = f a w'.
Proof. intros H. unfold mbind, M_bind. rewrite H. reflexivity. Qed.

Lemma bind_throw {A B} (m : M A) (f : A -> M B) w e w' :
  m w = (Throw e, w') -> (m ≫= f) w = (Throw e, w').
Proof. intros H. unfold mbind, M_bind. rewrite H. reflexivity. Qed.

Lemma dimensions_log_query q w :
  dimensions (log_query q w) = dimensions w ++ option_list (dimension_of q).
Proof.
  unfold dimensions, log_query. simpl. rewrite omap_app. simpl.
  destruct (dimension_of q); reflexivity.
Qed.

Lemma dimensions_log_response r w : dimensions (log_response r w) = dimensions w.
Proof. reflexivity. Qed.

Lemma quiet_ret {A} (a : A) : quiet (mret a).
Proof. intros w. reflexivity. Qed.

Lemma quiet_throw {A} e : quiet (@throw A e).
Proof. intros w. reflexivity. Qed.

Lemma quiet_respond r : quiet (respond r).
Proof. intros w. reflexivity. Qed.

Lemma quiet_query {A} q (r : Result A) : dimension_of q = None -> quiet (query q r).
Proof.
  intros H w. unfold query. simpl. rewrite dimensions_log_query, H.
  apply app_nil_r.
Qed.

Lemma quiet_bind {A B} (m : M A) (f : A -> M B) :
  quiet m -> (forall a, quiet (f a)) -> quiet (m ≫= f).
Proof.
  intros Hm Hf w. unfold mbind, M_bind. specialize (Hm w).
  destruct (m w) as [[a|e] w']; simpl in *; [rewrite Hf|]; exact Hm.
Qed.

Lemma quiet_mapM {A B} (f : A -> M B) l : (forall a, quiet (f a)) -> quiet (mapM f l).
Proof.
  intros Hf. induction l as [|a l IH]; simpl.
  - apply quiet_ret.
  - apply quiet_bind; [apply Hf|]. intros b.
    apply quiet_bind; [exact IH|]. intros bs. apply quiet_ret.
Qed.

(** After a computation, a quiet continuation adds no dimension. *)
Lemma bind_quiet {A B} (m : M A) (f : A -> M B) w :
  (forall a, quiet (f a)) -> dimensions ((m ≫= f) w).2 = dimensions (m w).2.
Proof.
  intros Hf. unfold mbind, M_bind.
  destruct (m w) as [[a|e] w']; simpl; [apply Hf | reflexivity].
Qed.

Lemma quiet_addFields st books : quiet (addFields st books).
Proof.
  unfold addFields. destruct books as [|[|b l]]; try apply quiet_ret.
  repeat (apply quiet_bind; [apply quiet_query; reflexivity | intros ?]).
  apply quiet_ret.
Qed.

Lemma quiet_with_subTags st bookId t : quiet (with_subTags st bookId t).
Proof.
  unfold with_subTags. destruct (JS.ToBoolean (colId t)).
  - apply quiet_bind; [apply quiet_query; reflexivity | intros ?; apply quiet_ret].
  - apply quiet_ret.
Qed.

End MonadFacts.

Section Dimensions.

Lemma truthy_gt n : JS.gt n (JS.Num 0) = true -> truthy n = true.
Proof.
  destruct n as [|z]; unfold truthy; simpl; [discriminate|]. intros H.
  apply Z.ltb_lt in H. destruct (Z.eqb_spec z 0); [lia | reflexivity].
Qed.

Lemma positive_test n : truthy n && JS.gt n (JS.Num 0) = JS.gt n (JS.Num 0).
Proof.
  destruct (JS.gt n (JS.Num 0)) eqn:E; [|apply andb_false_r].
  rewrite (truthy_gt n E). reflexivity.
Qed.

Lemma quiet_first_of arr : quiet (first_of arr).
Proof. destruct arr; [apply quiet_ret | apply quiet_throw]. Qed.

Ltac step :=
  unfold mbind, M_bind, mret, M_ret, query, throw, unless_first; simpl;
  rewrite ?dimensions_log_query; simpl.

Ltac one_or_two :=
  repeat match goal with
  | |- context [match ?r with Ok _ => _ | Throw _ => _ end] => destruct r; step
  | |- context [if ?c then _ else _] => destruct c; step
  end;
  first [ exists 0%nat; rewrite <- ?app_assoc; reflexivity
        | exists 1%nat; rewrite <- ?app_assoc; reflexivity ].

Lemma listAction_dimensions cfg st o pt w :
  dedicated (or_string (Req.type o) pt) = false ->
  match guarded_precedence (numField (Req.tagId o)) (numField (Req.ccNum o)) with
  | Some d =>
      exists k, dimensions (listAction cfg st o pt w).2
                = dimensions w ++ replicate (S k) d
  | None => dimensions (listAction cfg st o pt w).2 = dimensions w
  end.
Proof.
  intros Hd. apply orb_false_iff in Hd as [Hs Ha].
  unfold listAction. 
  assert (forall (m : M (JS.value * Books)) P,
    P (dimensions (m w).2) ->
    P (dimensions ((m ≫= (fun '(count, books) =>
         if JS.le (JS.ToNumber count) (JS.Num 0) || length_is_zero books
         then respond (Send_html (message_html
                (if JS.is_zero count then no_books_message else access_error_message)))
         else addFields st books ≫= (fun books0 =>
                respond (Render_booklist books0
                  (Nav.getPageNavigation cfg (numField (Req.page o)) count))))) w).2)) as K.
  { intros m P HP. rewrite bind_quiet; [exact HP|].
    intros [count books]. destruct (_ || _); [apply quiet_respond|].
    apply quiet_bind; [apply quiet_addFields | intros ?; apply quiet_respond]. }
  rewrite Hs, Ha, !positive_test. unfold guarded_precedence.
  destruct (JS.gt (numField (Req.tagId o)) (JS.Num 0)).
  { apply (K _ (fun ds => exists k, ds = _ ++ replicate (S k) _)). step. one_or_two. }
  destruct (JS.gt (numField (Req.ccNum o)) (JS.Num 0)).
  { apply (K _ (fun ds => exists k, ds = _ ++ replicate (S k) _)). step. one_or_two. }
  destruct (_ && _).
  { apply (K _ (fun ds => exists k, ds = _ ++ replicate (S k) _)). step. one_or_two. }
  apply (K _ (fun ds => ds = _)). reflexivity.
Qed.

Lemma adjacentBooks_dimensions st o w :
  Req.bookId o <> JS.Undefined -> JS.ToBoolean (Req.num o) = true ->
  dedicated (Req.type o) = false ->
  match guarded_precedence (numField (Req.tagId o)) (numField (Req.ccNum o)) with
  | Some d =>
      exists k, dimensions (adjacentBooks st o w).2 = dimensions w ++ replicate (S k) d
  | None => dimensions (adjacentBooks st o w).2 = dimensions w
  end.
Proof.
  intros Hb Hn Hd. apply orb_false_iff in Hd as [Hs Ha].
  unfold adjacentBooks.
  assert (forall (m : M (option (list Book) * option (list Book))) P,
    P (dimensions (m w).2) ->
    P (dimensions ((m ≫= (fun '(prevBookArray, nextBookArray) =>
         first_of nextBookArray ≫= (fun nextBook =>
         first_of prevBookArray ≫= (fun prevBook => mret (prevBook, nextBook))))) w).2))
    as K.
  { intros m P HP. rewrite bind_quiet; [exact HP|].
    intros [p n]. apply quiet_bind; [apply quiet_first_of | intros ?].
    apply quiet_bind; [apply quiet_first_of | intros ?; apply quiet_ret]. }
  destruct (Req.bookId o) eqn:Eb; [congruence| | |]; rewrite Hn; simpl;
    rewrite Hs, Ha, !positive_test; unfold guarded_precedence;
    (destruct (JS.gt (numField (Req.tagId o)) (JS.Num 0));
     [apply (K _ (fun ds => exists k, ds = _ ++ replicate (S k) _)); step; one_or_two|]);
    (destruct (JS.gt (numField (Req.ccNum o)) (JS.Num 0));
     [apply (K _ (fun ds => exists k, ds = _ ++ replicate (S k) _)); step; one_or_two|]);
    (destruct (_ && _);
     [apply (K _ (fun ds => exists k, ds = _ ++ replicate (S k) _)); step; one_or_two|]);
    apply (K _ (fun ds => ds = _)); reflexivity.
Qed.

Lemma bookAction_after_getBook st o w book :
  getBook st (JS.parseInt (Req.bookId o)) = Ok book ->
  dimensions (bookAction st o w).2
  = dimensions (adjacentBooks st o (log_query (QgetBook (JS.parseInt (Req.bookId o))) w)).2.
Proof.
  intros Hg. unfold bookAction.
  rewrite (bind_ok _ _ w book (log_query (QgetBook (JS.parseInt (Req.bookId o))) w))
    by (unfold query; rewrite Hg; reflexivity).
  apply bind_quiet. intros [prevBook nextBook].
  apply quiet_bind; [apply quiet_query; reflexivity | intros formats].
  apply quiet_bind; [destruct book; [apply quiet_ret | apply quiet_throw] | intros b].
  apply quiet_bind; [apply quiet_query; reflexivity | intros authors].
  apply quiet_bind; [apply quiet_query; reflexivity | intros publisher].
  apply quiet_bind; [apply quiet_query; reflexivity | intros tags].
  apply quiet_bind; [apply quiet_mapM, quiet_with_subTags | intros tags'].
  apply quiet_bind; [apply quiet_query; reflexivity | intros series].
  apply quiet_bind; [|intros ?; apply quiet_respond].
  destruct (pubdate _); [destruct (String.eqb _ _); apply quiet_ret | apply quiet_throw].
Qed.

End Dimensions.

(** C1, as worded, fails: a negative [tagId] with no custom column is
    neither a tag filter nor a plain search; the list request then makes
    no count or find query at all, where the worded precedence selects
    the plain search. *)
Lemma negative_tagId_selects_no_dimension :
  let o := {| Req.page := JS.Undefined; Req.sortString := None; Req.type := None;
              Req.searchString := None; Req.tagId := JS.Number (JS.Num (-1));
              Req.ccNum := JS.Undefined; Req.ccId := JS.Undefined;
              Req.serieId := JS.Undefined; Req.authorsId := JS.Undefined;
              Req.bookId := JS.Undefined; Req.num := JS.Undefined |} in
  let st := example_store (Ok (JS.Number (JS.Num 3))) three_books None in
  worded_precedence (numField (Req.tagId o)) (numField (Req.ccNum o)) = Plain /\
  dimensions (listAction example_config st o None (initial ∅ ∅)).2 = [] /\
  ~ (exists k, dimensions (listAction example_config st o None (initial ∅ ∅)).2
               = replicate (S k) Plain).
Proof.
  vm_compute. split; [reflexivity|]. split; [reflexivity|].
  intros [k Hk]. discriminate Hk.
Qed.

(** C1, amended: for a list or book-detail request whose type is
    neither "serie" nor "author", the count and find queries of the
    request belong to one dimension, chosen by precedence: the tag
    dimension if tagId > 0 (no custom-column query is made); else the
    custom-column dimension if ccNum > 0; else the plain search if tagId
    and ccNum are both 0.  Otherwise (a tagId or ccNum that is negative
    or not a number, and none positive) the request makes no count or
    find query.  For a book-detail request this is for one that names
    its book and position and whose book the store returns. *)
Theorem one_dimension_by_precedence cfg st o pt w :
  let tagId := numField (Req.tagId o) in
  let ccNum := numField (Req.ccNum o) in
  (dedicated (or_string (Req.type o) pt) = false ->
   match guarded_precedence tagId ccNum with
   | Some d =>
       exists k, dimensions (listAction cfg st o pt w).2
                 = dimensions w ++ replicate (S k) d
   | None => dimensions (listAction cfg st o pt w).2 = dimensions w
   end) /\
  (dedicated (Req.type o) = false ->
   Req.bookId o <> JS.Undefined -> JS.ToBoolean (Req.num o) = true ->
   (exists book, getBook st (JS.parseInt (Req.bookId o)) = Ok book) ->
   match guarded_precedence tagId ccNum with
   | Some d =>
       exists k, dimensions (bookAction st o w).2 = dimensions w ++ replicate (S k) d
   | None => dimensions (bookAction st o w).2 = dimensions w
   end).
Proof.
  split.
  - apply listAction_dimensions.
  - intros Hd Hb Hn [book Hg].
    rewrite (bookAction_after_getBook st o w book Hg).
    pose proof (adjacentBooks_dimensions st o
                  (log_query (QgetBook (JS.parseInt (Req.bookId o))) w) Hb Hn Hd) as H.
    rewrite dimensions_log_query in H. simpl in H. rewrite app_nil_r in H. exact H.
Qed.

Lemma one_dimension_by_precedence_witness :
  let st := example_store (Ok (JS.Number (JS.Num 3))) three_books None in
  (exists k, dimensions (listAction example_config st example_options None example_world).2
             = replicate (S k) Tag) /\
  (exists k, dimensions (bookAction st example_options example_world).2
             = replicate (S k) Tag).
Proof.
  intros st.
  destruct (one_dimension_by_precedence example_config st example_options None
              example_world) as [Hlist Hbook].
  split.
  - apply Hlist. reflexivity.
  - apply Hbook; [reflexivity | discriminate | reflexivity |].
    eexists. reflexivity.
Defined.

(** ** Previous and next book *)

Section NumberFacts.

Lemma round53_exact x : (0 <= x < 2 ^ 53)%Z -> JS.round53 x = x.
Proof.
  intros [H0 H1]. unfold JS.round53.
  assert (Z.log2 x - 52 <= 0)%Z as H.
  { destruct (Z.eq_dec x 0%Z) as [->|Hx]; [discriminate|].
    assert (Z.log2 x < 53)%Z by (apply Z.log2_lt_pow2; lia). lia. }
  apply Z.leb_le in H. rewrite H. reflexivity.
Qed.

(** Below [2 ^ 53] in magnitude [parseInt] returns the integer it is
    given. *)
Lemma parseInt_exact z :
  (Z.abs z < 2 ^ 53)%Z -> JS.parseInt (JS.Number (JS.Num z)) = JS.Num z.
Proof.
  intros H. unfold JS.parseInt. rewrite round53_exact by lia.
  assert (2 ^ 53 < JS.infinity_from)%Z as Hi by reflexivity.
  assert (2 ^ 53 < 10 ^ 21)%Z as Ht by reflexivity.
  destruct (Z.leb_spec JS.infinity_from (Z.abs z)); [lia|].
  destruct (Z.ltb_spec (Z.abs z) (10 ^ 21)); [reflexivity | lia].
Qed.

(** In that range a numeric option that is an integer is read as
    that integer. *)
Lemma numField_exact z :
  (Z.abs z < 2 ^ 53)%Z -> numField (JS.Number (JS.Num z)) = JS.Num z.
Proof.
  intros H. unfold numField. rewrite parseInt_exact by exact H.
  simpl. destruct (Z.eqb_spec z 0) as [->|]; reflexivity.
Qed.

End NumberFacts.

Lemma adjacentBooks_offsets st o w f prevRows nextRows :
  let rowNum := JS.sub (JS.parseInt (Req.num o)) (JS.Num 1) in
  let sort := sortField (Req.sortString o) in
  let before := JS.sub rowNum (JS.Num 1) in
  let after := JS.add rowNum (JS.Num 1) in
  Req.bookId o <> JS.Undefined ->
  JS.ToBoolean (Req.num o) = true ->
  activeFilter (Req.type o) o = Some f ->
  (JS.eq rowNum (JS.Num 0) = false ->
   store_find st f sort (JS.Num 1) before = Ok prevRows) ->
  store_find st f sort (JS.Num 1) after = Ok nextRows ->
  (JS.eq rowNum (JS.Num 0) = true ->
   adjacentBooks st o w =
     (Ok (None, head nextRows),
      log_query (find_query f sort (JS.Num 1) after) w)) /\
  (JS.eq rowNum (JS.Num 0) = false ->
   adjacentBooks st o w =
     (Ok (head prevRows, head nextRows),
      log_query (find_query f sort (JS.Num 1) after)
        (log_query (find_query f sort (JS.Num 1) before) w))).
Proof.
  intros rowNum sort before after Hb Hn Hf Hprev Hnext.
  unfold adjacentBooks, activeFilter in *.
  fold rowNum sort before after.
  assert (negb match Req.bookId o with JS.Undefined => true | _ => false end = true) as ->
    by (destruct (Req.bookId o); [congruence | reflexivity..]).
  rewrite Hn. simpl andb. cbv iota.
  rewrite !positive_test. unfold guarded_precedence in Hf.
  unfold mbind, M_bind, mret, M_ret, query, unless_first, first_of.
  destruct (is_case (Req.type o) "serie");
    [| destruct (is_case (Req.type o) "author");
       [| destruct (JS.gt (numField (Req.tagId o)) (JS.Num 0));
          [| destruct (JS.gt (numField (Req.ccNum o)) (JS.Num 0));
             [| destruct (JS.eq (numField (Req.tagId o)) (JS.Num 0)
                          && JS.eq (numField (Req.ccNum o)) (JS.Num 0));
                [| discriminate Hf]]]]];
    injection Hf as <-; simpl in Hprev, Hnext |- *;
    (split; intros E; rewrite E; [| rewrite (Hprev E)]; rewrite Hnext; reflexivity).
Qed.



(** ** What a list request answers *)

Section ListAnswers.

Ltac by_filter Hf :=
  unfold activeFilter, guarded_precedence in Hf;
  rewrite !positive_test;
  unfold mbind, M_bind, mret, M_ret, query, respond;
  destruct (is_case _ "serie");
    [| destruct (is_case _ "author");
       [| destruct (JS.gt (numField (Req.tagId _)) (JS.Num 0));
          [| destruct (JS.gt (numField (Req.ccNum _)) (JS.Num 0));
             [| destruct (JS.eq (numField (Req.tagId _)) (JS.Num 0)
                          && JS.eq (numField (Req.ccNum _)) (JS.Num 0));
                [| discriminate Hf]]]]];
    injection Hf as <-.

(** A count of 0 is answered with the "no books" message, and no find
    query is made. *)
Lemma list_zero_count cfg st o pt w f :
  activeFilter (or_string (Req.type o) pt) o = Some f ->
  store_count st f = Ok (JS.Number (JS.Num 0)) ->
  listAction cfg st o pt w
  = (Ok tt, log_response (Send_html (message_html no_books_message))
              (log_query (count_query f) w)).
Proof.
  intros Hf Hc. unfold listAction. by_filter Hf; simpl in Hc |- *;
    rewrite Hc; reflexivity.
Qed.

(** A count that is not 0 but compares as at most 0 ([null], [false],
    a negative number) is answered with the "access error" message. *)
Lemma list_nonpositive_count cfg st o pt w f c rows :
  activeFilter (or_string (Req.type o) pt) o = Some f ->
  store_count st f = Ok c ->
  JS.is_zero c = false ->
  JS.le (JS.ToNumber c) (JS.Num 0) = true ->
  store_find st f (sortField (Req.sortString o)) (limit cfg)
    (JS.mul (numField (Req.page o)) (limit cfg)) = Ok rows ->
  responses (listAction cfg st o pt w).2
  = responses w ++ [Send_html (message_html access_error_message)].
Proof.
  intros Hf Hc Hz Hle Hr. unfold listAction. by_filter Hf; simpl in Hc, Hr |- *;
    rewrite Hc; simpl; rewrite Hz; simpl; try rewrite Hr;
    try (destruct (JS.ToBoolean c); simpl; try rewrite Hr);
    simpl; rewrite Hle, Hz; reflexivity.
Qed.

End ListAnswers.

(** C4 does not hold of the code: when the count query of a plain list
    request returns [undefined], the response is not the "access error"
    message; the list view is rendered with the empty object for the
    books and a navigation made of disabled links.  When the count query
    throws, the exception leaves the handler and nothing is written to
    the response. *)
Theorem undefined_count_is_not_reported :
  listAction example_config (example_store (Ok JS.Undefined) three_books None)
    Req.empty None (initial ∅ ∅)
  = (Ok tt,
     log_response
       (Render_booklist EmptyObject
          {| Nav.size := JS.Undefined;
             Nav.currentpage := Some (JS.Num 0);
             Nav.firstpage := Some Nav.disabled;
             Nav.prevpage := Some Nav.disabled;
             Nav.nextpage := Some Nav.disabled;
             Nav.lastpage := Some Nav.disabled |})
       (log_query (QcountBooks None) (initial ∅ ∅))) /\
  listAction example_config
    (example_store (Throw (StoreError "database is locked")) three_books None)
    Req.empty None (initial ∅ ∅)
  = (Throw (StoreError "database is locked"),
     log_query (QcountBooks None) (initial ∅ ∅)).
Proof. split; reflexivity. Qed.

(** The list operation itself fetches the requested page before any
    clamping: page 10 of 95 books is queried at offset 300, the store
    has no row there, and the answer is the "access error" message. *)
Lemma list_request_beyond_last_page :
  let st := example_store (Ok (JS.Number (JS.Num 95))) ninety_five_books None in
  let w := (listAction example_config st page_10_options None (initial ∅ ∅)).2 in
  queries w = [QcountBooks None; QfindBooks None "" (JS.Num 30) (JS.Num 300)] /\
  responses w = [Send_html (message_html access_error_message)].
Proof. vm_compute. split; reflexivity. Qed.

(** ** Cover thumbnails *)

Section Covers.

Lemma append_nonempty_ne (a b : string) c : a +:+ String c b <> a.
Proof. induction a as [|x a IH]; simpl; [discriminate|]. intros [= H]. exact (IH H). Qed.

Lemma sendFile_present root file ct img w :
  files w !! (root +:+ "/" +:+ file) = Some img ->
  sendFile root file ct w = (Ok tt, log_response (SendFile root file ct img) w).
Proof. intros H. unfold sendFile. rewrite H. reflexivity. Qed.

(** The target is in the cache: it is sent as it is. *)
Lemma sendResizedCover_cached source dir file geom img w :
  files w !! (dir +:+ "/" +:+ file) = Some img ->
  sendResizedCover source dir file geom w
  = (Ok tt, log_response (SendFile dir file "image/jpeg" img) w).
Proof.
  intros H. unfold sendResizedCover, try_catch, mbind, M_bind, pathExists.
  rewrite H. simpl. rewrite (sendFile_present _ _ _ img) by exact H. reflexivity.
Qed.

(** The target is not in the cache and the source can be read: it is
    resized into the cache and sent. *)
Lemma sendResizedCover_absent source dir file geom src w :
  files w !! (dir +:+ "/" +:+ file) = None ->
  dir +:+ "/" +:+ file ∉ dirs w ->
  files w !! source = Some src ->
  sendResizedCover source dir file geom w
  = (Ok tt,
     log_response (SendFile dir file "image/jpeg" (Resized geom src))
       (write_file (dir +:+ "/" +:+ file) (Resized geom src)
          (log_resize {| resize_source := source; resize_data := geom;
                         resize_target := dir +:+ "/" +:+ file |} w))).
Proof.
  intros Hf Hd Hs. unfold sendResizedCover, try_catch, mbind, M_bind, pathExists.
  rewrite Hf. rewrite (bool_decide_eq_false_2 _ Hd).
  rewrite (bool_decide_eq_false_2 (is_Some None)) by (intros [? ?]; discriminate).
  simpl. unfold sharp_toFile. rewrite Hs.
  rewrite (sendFile_present _ _ _ (Resized geom src)); [reflexivity|].
  simpl. apply lookup_insert_eq.
Qed.

Lemma coverAction_found p cfg st id fd w :
  getCoverData st id = Ok (Some fd) ->
  coverAction p cfg st id w
  = try_catch
      (sendResizedCover (coverSource cfg fd)
         (cacheDir cfg (leadingDigit p) (cover_bookId fd))
         (cacheFile (cover_bookId fd)) (geometry p))
      (fun error => errorHandler error
         match p with
         | list_profile => "coverListAction"
         | detail_profile => "coverBookAction"
         end)
      (add_dir (cacheDir cfg (leadingDigit p) (cover_bookId fd))
         (log_query (QgetCoverData id) w)).
Proof.
  intros H. destruct p; simpl;
    unfold coverListAction, coverBookAction, try_catch, mbind, M_bind, query,
      ensureDirSync, mret, M_ret; rewrite H; reflexivity.
Qed.

End Covers.

(** C5: for every cover request whose book the store knows: if the
    target file of the profile is in the cache it is sent as it is and no
    resize is made; if it is absent (and the source cover can be read)
    the source is resized with the geometry of the profile, height 250
    for the list and width 320 for the detail profile, into the cache
    path and then sent.  So a first access creates exactly the one file
    at the cache path, and a second access makes no further resize and
    sends that file. *)
Theorem thumbnail_cached_once (p : Profile) cfg st id fd w :
  let dir := cacheDir cfg (leadingDigit p) (cover_bookId fd) in
  let file := cacheFile (cover_bookId fd) in
  let target := dir +:+ "/" +:+ file in
  let w0 := add_dir dir (log_query (QgetCoverData id) w) in
  getCoverData st id = Ok (Some fd) ->
  (forall img, files w !! target = Some img ->
     coverAction p cfg st id w
     = (Ok tt, log_response (SendFile dir file "image/jpeg" img) w0)) /\
  (forall src, files w !! target = None -> target ∉ dirs w ->
     files w !! coverSource cfg fd = Some src ->
     let img := Resized (geometry p) src in
     let call := {| resize_source := coverSource cfg fd; resize_data := geometry p;
                    resize_target := target |} in
     let w1 := log_response (SendFile dir file "image/jpeg" img)
                 (write_file target img (log_resize call w0)) in
     coverAction p cfg st id w = (Ok tt, w1) /\
     files w1 = <[target := img]> (files w) /\
     resizes w1 = resizes w ++ [call] /\
     let w2 := (coverAction p cfg st id w1).2 in
     resizes w2 = resizes w1 /\ files w2 = files w1 /\
     responses w2 = responses w1 ++ [SendFile dir file "image/jpeg" img]) /\
  geometry list_profile = Height 250 /\ geometry detail_profile = Width 320.
Proof.
  intros dir file target w0 Hfd.
  assert (forall w' img, files w' !! target = Some img ->
            coverAction p cfg st id w'
            = (Ok tt, log_response (SendFile dir file "image/jpeg" img)
                        (add_dir dir (log_query (QgetCoverData id) w')))) as Hcached.
  { intros w' img H. rewrite (coverAction_found p cfg st id fd w' Hfd).
    unfold try_catch. rewrite (sendResizedCover_cached _ _ _ _ img); [reflexivity|].
    exact H. }
  split; [apply Hcached|]. split; [|split; reflexivity].
  intros src Hnone Hdir Hsrc img call w1.
  assert (coverAction p cfg st id w = (Ok tt, w1)) as Hfirst.
  { rewrite (coverAction_found p cfg st id fd w Hfd). unfold try_catch.
    rewrite (sendResizedCover_absent _ _ _ _ src); [reflexivity | exact Hnone | | exact Hsrc].
    simpl. intros [Hin | Hin]%elem_of_union; [|exact (Hdir Hin)].
    apply elem_of_singleton in Hin. exact (append_nonempty_ne dir file "/" Hin). }
  split; [exact Hfirst|]. split; [reflexivity|]. split; [reflexivity|].
  rewrite (Hcached w1 img) by apply lookup_insert_eq.
  repeat split; reflexivity.
Qed.

(** C10: when the store has no cover data for the requested id, the
    list-profile cover operation writes nothing to the response, which
    stays unanswered, and the detail-profile cover operation raises and
    answers with status 500 through the error handler. *)
Theorem no_cover_data cfg st id w :
  getCoverData st id = Ok None ->
  coverListAction cfg st id w = (Ok tt, log_query (QgetCoverData id) w) /\
  responses (coverListAction cfg st id w).2 = responses w /\
  coverBookAction cfg st id w
  = (Ok tt,
     log_response
       (WriteHead_end 500
          ("Cassis: Internal server error in 'coverBookAction': "
           +:+ "Cannot read properties of undefined (reading 'path')"))
       (log_query (QgetCoverData id) w)).
Proof.
  intros H.
  unfold coverListAction, coverBookAction, try_catch, mbind, M_bind, query.
  rewrite H. repeat split; reflexivity.
Qed.

Lemma no_cover_data_witness :
  let st := example_store (Ok (JS.Number (JS.Num 3))) three_books None in
  responses (coverListAction example_config st (JS.Num 7) example_world).2 = [] /\
  responses (coverBookAction example_config st (JS.Num 7) example_world).2
  = [WriteHead_end 500
       ("Cassis: Internal server error in 'coverBookAction': "
        +:+ "Cannot read properties of undefined (reading 'path')")].
Proof.
  intros st.
  destruct (no_cover_data example_config st (JS.Num 7) example_world)
    as (_ & Hlist & Hbook); [reflexivity|].
  split; [exact Hlist | rewrite Hbook; reflexivity].
Defined.

Lemma thumbnail_cached_once_witness :
  let st := example_store (Ok (JS.Number (JS.Num 3))) three_books (Some example_cover) in
  exists w1,
    coverListAction example_config st (JS.Num 42) example_world = (Ok tt, w1) /\
    files w1 !! "./Cache/100/42.jpg" = Some (Resized (Height 250) (Original "stone")) /\
    resizes (coverListAction example_config st (JS.Num 42) w1).2 = resizes w1.
Proof.
  intros st.
  destruct (thumbnail_cached_once list_profile example_config st (JS.Num 42)
              example_cover example_world) as (_ & H & _); [reflexivity|].
  destruct (H (Original "stone")) as (H1 & H2 & H3 & H4 & H5 & H6);
    [reflexivity | vm_compute; set_solver | reflexivity |].
  eexists. split; [exact H1|]. split; [|exact H4].
  rewrite H2. apply lookup_insert_eq.
Defined.

(** * Further properties *)

Import Props Request.

(** ** Page navigation, in general *)

Section NavigationFacts.

Lemma last_page_spec cfg count :
  (0 < PAGE_LIMIT cfg)%Z ->
  (last_page cfg count * PAGE_LIMIT cfg < count
   <= (last_page cfg count + 1) * PAGE_LIMIT cfg)%Z.
Proof.
  intros HL. unfold last_page.
  pose proof (Z.div_mod (- count) (PAGE_LIMIT cfg)) as Hdm.
  pose proof (Z.mod_pos_bound (- count) (PAGE_LIMIT cfg) HL) as Hb.
  specialize (Hdm ltac:(lia)). nia.
Qed.

Lemma last_page_positive cfg count :
  (0 < PAGE_LIMIT cfg)%Z -> (PAGE_LIMIT cfg < count)%Z -> (1 <= last_page cfg count)%Z.
Proof. intros HL Hc. pose proof (last_page_spec cfg count HL). nia. Qed.

(** The navigation of an integer page of a catalogue of more than one
    page, with the clamping resolved. *)
Lemma getPageNavigation_clamped cfg page count :
  (0 < PAGE_LIMIT cfg)%Z -> (PAGE_LIMIT cfg < count)%Z ->
  let q := clamped cfg count page in
  let lp := last_page cfg count in
  Nav.getPageNavigation cfg (JS.Num page) (JS.Number (JS.Num count)) =
    {| Nav.size := JS.Number (JS.Num count);
       Nav.currentpage := Some (JS.Num q);
       Nav.firstpage :=
         Some (if (q =? 0)%Z then Nav.disabled else Nav.enabled (Nav.LStr "0"));
       Nav.prevpage :=
         Some (if (q =? 0)%Z then Nav.disabled
               else Nav.enabled (Nav.LNum (JS.Num (q - 1))));
       Nav.nextpage :=
         Some (if (q =? lp)%Z then Nav.disabled
               else Nav.enabled (Nav.LNum (JS.Num (q + 1))));
       Nav.lastpage := Some (Nav.enabled (Nav.LNum (JS.Num lp))) |}.
Proof.
  intros HL Hc q lp.
  pose proof (last_page_positive cfg count HL Hc) as Hlp. fold lp in Hlp.
  assert (0 <= q <= lp)%Z as Hr by (unfold q, clamped; fold lp; lia).
  assert ((if JS.lt (JS.Num page) (JS.Num 0) then JS.Num 0
           else if JS.gt (JS.Num page) (JS.Num lp) then JS.Num lp
           else JS.Num page) = JS.Num q) as Hclamp.
  { unfold JS.gt, JS.lt, q, clamped. fold lp.
    destruct (Z.ltb_spec page 0); [f_equal; lia|].
    destruct (Z.ltb_spec lp page); f_equal; lia. }
  unfold Nav.getPageNavigation. simpl JS.ToNumber. unfold JS.le at 1.
  destruct (Z.leb_spec count (PAGE_LIMIT cfg)) as [?|_]; [lia|].
  unfold JS.ceil_div. destruct (Z.eqb_spec (PAGE_LIMIT cfg) 0) as [?|_]; [lia|].
  change (JS.sub (JS.Num (- (- count / PAGE_LIMIT cfg))) (JS.Num 1)) with (JS.Num lp).
  cbv zeta. rewrite Hclamp.
  unfold JS.lt, JS.gt, JS.lt, JS.le, JS.add, JS.sub.
  destruct (Z.eqb_spec q 0) as [H0|H0].
  - rewrite H0. destruct (Z.eqb_spec 0 lp); [lia|].
    destruct (Z.ltb_spec 0 0); [lia|].
    destruct (Z.ltb_spec 0 lp); [|lia]. destruct (Z.leb_spec 0 lp); [|lia].
    reflexivity.
  - destruct (Z.ltb_spec 0 q); [|lia]. destruct (Z.leb_spec q lp); [|lia].
    destruct (Z.eqb_spec q lp); destruct (Z.ltb_spec q lp); try lia; reflexivity.
Qed.

End NavigationFacts.

(** X1: for a positive page size and more books than one page holds,
    the last page is the page that holds the last book: it is at least 1,
    the pages before it hold fewer than [count] books and the pages up to
    it hold them all; the link to it is always enabled, for an integer
    page. *)
Theorem last_page_holds_last_book cfg page count :
  (0 < PAGE_LIMIT cfg)%Z -> (PAGE_LIMIT cfg < count)%Z ->
  let lp := last_page cfg count in
  Nav.lastpage (Nav.getPageNavigation cfg (JS.Num page) (JS.Number (JS.Num count)))
    = Some (Nav.enabled (Nav.LNum (JS.Num lp))) /\
  (1 <= lp)%Z /\
  (lp * PAGE_LIMIT cfg < count <= (lp + 1) * PAGE_LIMIT cfg)%Z.
Proof.
  intros HL Hc lp. rewrite getPageNavigation_clamped by assumption.
  split; [reflexivity|]. split.
  - apply last_page_positive; assumption.
  - apply last_page_spec; assumption.
Qed.

Lemma last_page_holds_last_book_witness :
  Nav.lastpage
    (Nav.getPageNavigation example_config (JS.Num 1) (JS.Number (JS.Num 61)))
  = Some (Nav.enabled (Nav.LNum (JS.Num 2))).
Proof.
  destruct (last_page_holds_last_book example_config 1 61) as (H & _);
    [reflexivity | reflexivity |].
  rewrite H. reflexivity.
Defined.

(** X2: for a positive page size and more books than one page holds,
    the current page of the navigation is the requested integer page
    brought into [0, last page]: a page in range is kept, a negative page
    becomes 0 and a page beyond the end becomes the last page.  The first
    and previous links are disabled exactly on page 0 and the next link
    exactly on the last page; an enabled previous or next link points to
    the neighbouring page, which is in range. *)
Theorem navigation_links_in_range cfg page count :
  (0 < PAGE_LIMIT cfg)%Z -> (PAGE_LIMIT cfg < count)%Z ->
  let lp := last_page cfg count in
  let nav := Nav.getPageNavigation cfg (JS.Num page) (JS.Number (JS.Num count)) in
  exists q,
    Nav.currentpage nav = Some (JS.Num q) /\ (0 <= q <= lp)%Z /\
    ((0 <= page <= lp)%Z -> q = page) /\
    ((page < 0)%Z -> q = 0%Z) /\ ((lp < page)%Z -> q = lp) /\
    (q = 0%Z -> Nav.firstpage nav = Some Nav.disabled
                /\ Nav.prevpage nav = Some Nav.disabled) /\
    (q <> 0%Z -> Nav.firstpage nav = Some (Nav.enabled (Nav.LStr "0"))
                 /\ Nav.prevpage nav = Some (Nav.enabled (Nav.LNum (JS.Num (q - 1))))
                 /\ (0 <= q - 1 <= lp)%Z) /\
    (q = lp -> Nav.nextpage nav = Some Nav.disabled) /\
    (q <> lp -> Nav.nextpage nav = Some (Nav.enabled (Nav.LNum (JS.Num (q + 1))))
                /\ (0 <= q + 1 <= lp)%Z).
Proof.
  intros HL Hc lp nav. exists (clamped cfg count page).
  pose proof (last_page_positive cfg count HL Hc) as Hlp. fold lp in Hlp.
  unfold nav. rewrite getPageNavigation_clamped by assumption. simpl.
  fold lp. unfold clamped. fold lp.
  split; [reflexivity|]. split; [lia|].
  repeat split; try lia.
  - rewrite H. reflexivity.
  - rewrite H. reflexivity.
  - destruct (Z.eqb_spec (Z.max 0 (Z.min page lp)) 0); [lia | reflexivity].
  - destruct (Z.eqb_spec (Z.max 0 (Z.min page lp)) 0); [lia | reflexivity].
  - destruct (Z.eqb_spec (Z.max 0 (Z.min page lp)) lp); [reflexivity | lia].
  - destruct (Z.eqb_spec (Z.max 0 (Z.min page lp)) lp); [lia | reflexivity].
Qed.

Lemma navigation_links_in_range_witness :
  exists q,
    Nav.currentpage
      (Nav.getPageNavigation example_config (JS.Num (-4)) (JS.Number (JS.Num 61)))
    = Some (JS.Num q) /\ (0 <= q <= 2)%Z.
Proof.
  destruct (navigation_links_in_range example_config (-4) 61) as (q & H1 & H2 & _);
    [reflexivity | reflexivity |].
  exists q. split; [exact H1 | exact H2].
Defined.

(** X3: clamping is idempotent: asking for the page the navigation
    shows as current gives the same navigation. *)
Theorem navigation_of_current_page cfg page count :
  (0 < PAGE_LIMIT cfg)%Z -> (PAGE_LIMIT cfg < count)%Z ->
  Nav.getPageNavigation cfg (JS.Num (clamped cfg count page)) (JS.Number (JS.Num count))
  = Nav.getPageNavigation cfg (JS.Num page) (JS.Number (JS.Num count)).
Proof.
  intros HL Hc. rewrite !getPageNavigation_clamped by assumption.
  assert (clamped cfg count (clamped cfg count page) = clamped cfg count page) as ->
    by (unfold clamped; lia).
  reflexivity.
Qed.

Lemma navigation_of_current_page_witness :
  Nav.getPageNavigation example_config (JS.Num 3) (JS.Number (JS.Num 95))
  = Nav.getPageNavigation example_config (JS.Num 10) (JS.Number (JS.Num 95)).
Proof.
  apply (navigation_of_current_page example_config 10 95); reflexivity.
Defined.

(** X4: a page that is not a number is not clamped: with more books
    than one page holds, the current page stays NaN and all four links,
    the last one included, are disabled. *)
Theorem navigation_of_nan_page cfg count :
  (0 < PAGE_LIMIT cfg)%Z -> (PAGE_LIMIT cfg < count)%Z ->
  Nav.getPageNavigation cfg JS.NaN (JS.Number (JS.Num count)) =
    {| Nav.size := JS.Number (JS.Num count);
       Nav.currentpage := Some JS.NaN;
       Nav.firstpage := Some Nav.disabled;
       Nav.prevpage := Some Nav.disabled;
       Nav.nextpage := Some Nav.disabled;
       Nav.lastpage := Some Nav.disabled |}
  /\ numField (JS.Bool true) = JS.NaN.
Proof.
  intros HL Hc. split; [|reflexivity].
  unfold Nav.getPageNavigation. simpl JS.ToNumber. unfold JS.le at 1.
  destruct (Z.leb_spec count (PAGE_LIMIT cfg)) as [?|_]; [lia|].
  unfold JS.ceil_div. destruct (Z.eqb_spec (PAGE_LIMIT cfg) 0) as [?|_]; [lia|].
  reflexivity.
Qed.

Lemma navigation_of_nan_page_witness :
  Nav.currentpage (Nav.getPageNavigation example_config JS.NaN (JS.Number (JS.Num 95)))
  = Some JS.NaN.
Proof.
  destruct (navigation_of_nan_page example_config 95) as [H _];
    [reflexivity | reflexivity |].
  rewrite H. reflexivity.
Defined.

(** ** Decoding and the attached fields *)

Section FieldFacts.


Lemma decode_eq s : decode s = replaceAll_char "|" "," s.
Proof. destruct s; reflexivity. Qed.

Lemma decode_has_no_bar s : has_bar (decode s) = false.
Proof.
  rewrite decode_eq. unfold has_bar.
  induction s as [|c s IH]; [reflexivity|].
  cbn [existsb list_ascii_of_string replaceAll_char].
  rewrite IH, orb_false_r.
  destruct (Ascii.eqb_spec c "|") as [->|Hc]; [reflexivity|].
  destruct (Ascii.eqb_spec "|"%char c); congruence.
Qed.


(** What [addFields] does to a page that is not empty, when the four
    lookups return. *)
Lemma addFields_run st b l arows frows srows trows w :
  let ids := bookIdString (b :: l) in
  getAuthorsOfBooks st ids = Ok arows ->
  getFormatsOfBooks st ids = Ok frows ->
  getSeriesOfBooks st ids = Ok srows ->
  getTagsOfBooks st ids = Ok trows ->
  exists l',
    addFields st (Rows (b :: l)) w
    = (Ok (Rows l'),
       log_query (QgetTagsOfBooks ids)
         (log_query (QgetSeriesOfBooks ids)
            (log_query (QgetFormatsOfBooks ids)
               (log_query (QgetAuthorsOfBooks ids) w)))) /\
    Forall2 (enriched arows frows srows trows) (b :: l) l'.
Proof.
  intros ids Ha Hf Hs Ht. eexists. split.
  - unfold addFields, mbind, M_bind, mret, M_ret, query.
    fold (bookIdString (b :: l)). fold ids.
    rewrite Ha, Hf, Hs, Ht. reflexivity.
  - rewrite !map_map. generalize (b :: l). clear.
    intros l. induction l as [|x l IH]; simpl; constructor; [|exact IH].
    unfold enriched.
    destruct (List.find (fun s => (serie_bookId s =? bookId x)%Z) srows);
      repeat split; reflexivity.
Qed.

Lemma Forall_map_all {A B} (P : B -> Prop) (f : A -> B) l :
  (forall a, P (f a)) -> Forall P (map f l).
Proof. intros H. induction l; simpl; constructor; auto. Qed.

End FieldFacts.



(** X6: for a page that is not empty, [addFields] makes exactly four
    lookups, for authors, formats, series and tags in this order, each
    with the ids of the whole page joined by commas, whatever the number
    of books; it returns the books in their order, each with its id,
    title, date and publisher unchanged and with the rows of the lookups
    that carry its id joined to it, decoded. *)
Theorem addFields_joins_by_id st b l arows frows srows trows w :
  let ids := bookIdString (b :: l) in
  getAuthorsOfBooks st ids = Ok arows ->
  getFormatsOfBooks st ids = Ok frows ->
  getSeriesOfBooks st ids = Ok srows ->
  getTagsOfBooks st ids = Ok trows ->
  exists l',
    (addFields st (Rows (b :: l)) w).1 = Ok (Rows l') /\
    queries (addFields st (Rows (b :: l)) w).2 = queries w ++ lookups ids /\
    responses (addFields st (Rows (b :: l)) w).2 = responses w /\
    length l' = length (b :: l) /\
    map bookId l' = map bookId (b :: l) /\
    Forall2 (enriched arows frows srows trows) (b :: l) l'.
Proof.
  intros ids Ha Hf Hs Ht.
  destruct (addFields_run st b l arows frows srows trows w Ha Hf Hs Ht)
    as (l' & Hrun & Hl').
  assert (map bookId l' = map bookId (b :: l)) as Hids.
  { clear -Hl'. remember (b :: l) as l0 eqn:E. clear E.
    induction Hl' as [|x y l0 l1 Hxy _ IH]; [reflexivity|].
    simpl. rewrite IH. f_equal. apply Hxy. }
  exists l'. fold ids in Hrun. rewrite Hrun.
  split; [reflexivity|]. split; [simpl; rewrite <- !app_assoc; reflexivity|].
  split; [reflexivity|]. split; [symmetry; exact (Forall2_length _ _ _ Hl')|].
  split; [exact Hids | exact Hl'].
Qed.

Lemma addFields_joins_by_id_witness :
  let st := example_store (Ok (JS.Number (JS.Num 3))) three_books None in
  queries (addFields st (Rows three_books) example_world).2
  = lookups (IdString "11,12,13").
Proof.
  intros st.
  destruct (addFields_joins_by_id st (example_book 11)
              [example_book 12; example_book 13] [] [] [] [] example_world)
    as (l' & _ & H & _); [reflexivity..|].
  exact H.
Defined.

(** X7: after [addFields] on a page that is not empty, no book is left
    without its authors, formats and tags (a book without rows gets the
    empty list), and no attached author name, format name, series name
    or tag name holds a bar. *)
Theorem addFields_leaves_nothing_absent st b l arows frows srows trows w :
  let ids := bookIdString (b :: l) in
  getAuthorsOfBooks st ids = Ok arows ->
  getFormatsOfBooks st ids = Ok frows ->
  getSeriesOfBooks st ids = Ok srows ->
  getTagsOfBooks st ids = Ok trows ->
  Forall (fun x => forall s, serie x = Some s -> has_bar (seriesName s) = false) (b :: l) ->
  exists l',
    (addFields st (Rows (b :: l)) w).1 = Ok (Rows l') /\
    Forall (fun x =>
      (exists a, authors x = Some a
                 /\ Forall (fun r => has_bar (authorsName r) = false) a) /\
      (exists f, formats x = Some f /\ Forall (fun n => has_bar n = false) f) /\
      (exists t, tags x = Some (TagNames t) /\ Forall (fun n => has_bar n = false) t) /\
      (forall s, serie x = Some s -> has_bar (seriesName s) = false)) l'.
Proof.
  intros ids Ha Hf Hs Ht Hold.
  destruct (addFields_run st b l arows frows srows trows w Ha Hf Hs Ht)
    as (l' & Hrun & Hl').
  exists l'. fold ids in Hrun. rewrite Hrun. split; [reflexivity|].
  clear Hrun Ha Hf Hs Ht ids. remember (b :: l) as l0 eqn:E. clear E.
  induction Hl' as [|x y l0 l1 Hxy _ IH]; [constructor|].
  inversion Hold as [|? ? Hx Hold']; subst.
  constructor; [|apply IH; exact Hold'].
  destruct Hxy as (_ & _ & _ & _ & Hau & Hfo & Hta & Hse).
  split; [eexists; split; [exact Hau|]|].
  { apply Forall_map_all. intros r. apply decode_has_no_bar. }
  split; [eexists; split; [exact Hfo|]|].
  { apply Forall_map_all. intros r. apply decode_has_no_bar. }
  split; [eexists; split; [exact Hta|]|].
  { apply Forall_map_all. intros r. apply decode_has_no_bar. }
  intros s Hsy. rewrite Hse in Hsy.
  destruct (List.find _ srows); [|exact (Hx s Hsy)].
  injection Hsy as <-. apply decode_has_no_bar.
Qed.

Lemma addFields_leaves_nothing_absent_witness :
  let st := example_store (Ok (JS.Number (JS.Num 3))) three_books None in
  exists l',
    (addFields st (Rows three_books) example_world).1 = Ok (Rows l') /\
    Forall (fun x => exists a, authors x = Some a) l'.
Proof.
  intros st.
  destruct (addFields_leaves_nothing_absent st (example_book 11)
              [example_book 12; example_book 13] [] [] [] [] example_world)
    as (l' & H1 & H2); [reflexivity.. | |].
  - repeat constructor; discriminate.
  - exists l'. split; [exact H1|].
    eapply Forall_impl; [exact H2|]. simpl.
    intros x ((a & Ha & _) & _). exists a. exact Ha.
Defined.

(** ** List requests, in general *)

Ltac split_by_filter Hf :=
  unfold activeFilter, guarded_precedence in Hf;
  rewrite !positive_test;
  unfold mbind, M_bind, mret, M_ret, query, respond;
  destruct (is_case _ "serie");
    [| destruct (is_case _ "author");
       [| destruct (JS.gt (numField (Req.tagId _)) (JS.Num 0));
          [| destruct (JS.gt (numField (Req.ccNum _)) (JS.Num 0));
             [| destruct (JS.eq (numField (Req.tagId _)) (JS.Num 0)
                          && JS.eq (numField (Req.ccNum _)) (JS.Num 0))]]]].

Section ListFacts.

Lemma positive_count n :
  (0 < n)%Z ->
  JS.is_zero (JS.Number (JS.Num n)) = false /\
  JS.ToBoolean (JS.Number (JS.Num n)) = true /\
  JS.le (JS.ToNumber (JS.Number (JS.Num n))) (JS.Num 0) = false.
Proof.
  intros H. simpl. destruct (Z.eqb_spec n 0); [lia|].
  destruct (Z.leb_spec n 0); [lia|]. repeat split.
Qed.

(** A list request up to its answer, when the count is a positive
    integer and the find query returns [rows]. *)
Lemma listAction_found cfg st o pt w f n rows :
  activeFilter (or_string (Req.type o) pt) o = Some f ->
  store_count st f = Ok (JS.Number (JS.Num n)) -> (0 < n)%Z ->
  store_find st f (sortField (Req.sortString o)) (limit cfg)
    (JS.mul (numField (Req.page o)) (limit cfg)) = Ok rows ->
  listAction cfg st o pt w
  = (let w2 := log_query (find_query f (sortField (Req.sortString o)) (limit cfg)
                            (JS.mul (numField (Req.page o)) (limit cfg)))
                 (log_query (count_query f) w) in
     if length_is_zero (Rows rows)
     then respond (Send_html (message_html access_error_message)) w2
     else (addFields st (Rows rows) ≫= (fun books =>
             respond (Render_booklist books
               (Nav.getPageNavigation cfg (numField (Req.page o))
                  (JS.Number (JS.Num n)))))) w2).
Proof.
  intros Hf Hc Hn Hr. destruct (positive_count n Hn) as (Hz & Htb & Hle).
  unfold listAction. split_by_filter Hf; try discriminate Hf; injection Hf as <-;
    simpl in Hc, Hr; cbv beta iota zeta; rewrite Hc; cbv beta iota zeta;
    rewrite ?Htb, Hz; cbn [negb andb]; cbv beta iota zeta; rewrite Hr;
    cbv beta iota zeta; rewrite Hle, Hz; cbn [orb];
    destruct (length_is_zero (Rows rows)); reflexivity.
Qed.

Lemma quietly_ret {A} (a : A) : quietly (mret a).
Proof. intros w. exists a, w. split; reflexivity. Qed.

Lemma quietly_query {A} q (r : Result A) : answers r -> quietly (query q r).
Proof. intros [a ->] w. exists a, (log_query q w). split; reflexivity. Qed.

Lemma quietly_bind {A B} (m : M A) (f : A -> M B) :
  quietly m -> (forall a, quietly (f a)) -> quietly (m ≫= f).
Proof.
  intros Hm Hf w. destruct (Hm w) as (a & w1 & E & Hr).
  destruct (Hf a w1) as (b & w2 & E2 & Hr2).
  exists b, w2. split; [|congruence].
  unfold mbind, M_bind. rewrite E. exact E2.
Qed.

Lemma quietly_mapM {A B} (f : A -> M B) l : (forall a, quietly (f a)) -> quietly (mapM f l).
Proof.
  intros Hf. induction l as [|a l IH]; simpl.
  - apply quietly_ret.
  - apply quietly_bind; [apply Hf|]. intros b.
    apply quietly_bind; [exact IH|]. intros bs. apply quietly_ret.
Qed.




End ListFacts.

(** X8: a list request whose count is 0 is answered with the "no
    books" message, and no find query is made: the count query is the
    only store call. *)
Theorem zero_count_is_no_books cfg st o pt w f :
  activeFilter (or_string (Req.type o) pt) o = Some f ->
  store_count st f = Ok (JS.Number (JS.Num 0)) ->
  (listAction cfg st o pt w).1 = Ok tt /\
  queries (listAction cfg st o pt w).2 = queries w ++ [count_query f] /\
  responses (listAction cfg st o pt w).2
  = responses w ++ [Send_html (message_html no_books_message)].
Proof.
  intros Hf Hc. rewrite (list_zero_count cfg st o pt w f Hf Hc).
  repeat split; reflexivity.
Qed.

Lemma zero_count_is_no_books_witness :
  let st := example_store (Ok (JS.Number (JS.Num 0))) [] None in
  queries (listAction example_config st example_options None example_world).2
  = [QcountBooksWithTags (Some ["harry"; "potter"]) (JS.Num 5)].
Proof.
  intros st.
  destruct (zero_count_is_no_books example_config st example_options None example_world
              (ByTag (Some ["harry"; "potter"]) (JS.Num 5))) as (_ & H & _);
    [reflexivity | reflexivity |].
  exact H.
Defined.

(** X9: a list request whose count is not 0 but compares as at most 0
    (null, false, a negative number) is answered with the "access error"
    message, when the find query, if one is made, returns. *)
Theorem nonpositive_count_is_access_error cfg st o pt w f c rows :
  activeFilter (or_string (Req.type o) pt) o = Some f ->
  store_count st f = Ok c ->
  JS.is_zero c = false ->
  JS.le (JS.ToNumber c) (JS.Num 0) = true ->
  store_find st f (sortField (Req.sortString o)) (limit cfg)
    (JS.mul (numField (Req.page o)) (limit cfg)) = Ok rows ->
  responses (listAction cfg st o pt w).2
  = responses w ++ [Send_html (message_html access_error_message)] /\
  (JS.is_zero JS.Null = false /\ JS.le (JS.ToNumber JS.Null) (JS.Num 0) = true) /\
  (JS.is_zero (JS.Bool false) = false
   /\ JS.le (JS.ToNumber (JS.Bool false)) (JS.Num 0) = true).
Proof.
  intros Hf Hc Hz Hle Hr. split; [|repeat split].
  exact (list_nonpositive_count cfg st o pt w f c rows Hf Hc Hz Hle Hr).
Qed.

Lemma nonpositive_count_is_access_error_witness :
  let st := example_store (Ok JS.Null) three_books None in
  responses (listAction example_config st example_options None example_world).2
  = [Send_html (message_html access_error_message)].
Proof.
  intros st.
  destruct (nonpositive_count_is_access_error example_config st example_options None
              example_world (ByTag (Some ["harry"; "potter"]) (JS.Num 5)) JS.Null
              three_books) as (H & _); [reflexivity..|].
  exact H.
Defined.

(** X10: a list request that resolves to no filter (its type is
    neither "serie" nor "author", no tagId or ccNum is positive and they
    are not both 0) makes no store call and is answered with the "no
    books" message. *)
Theorem no_filter_is_no_books cfg st o pt w :
  activeFilter (or_string (Req.type o) pt) o = None ->
  listAction cfg st o pt w
  = (Ok tt, log_response (Send_html (message_html no_books_message)) w).
Proof.
  intros Hf. unfold listAction. split_by_filter Hf;
    repeat match type of Hf with
           | context [match ?x with _ => _ end] => destruct x
           end; try discriminate Hf; reflexivity.
Qed.

Lemma no_filter_is_no_books_witness :
  let o := {| Req.page := JS.Undefined; Req.sortString := None; Req.type := None;
              Req.searchString := None; Req.tagId := JS.Number (JS.Num 0);
              Req.ccNum := JS.Number (JS.Num (-2)); Req.ccId := JS.Undefined;
              Req.serieId := JS.Undefined; Req.authorsId := JS.Undefined;
              Req.bookId := JS.Undefined; Req.num := JS.Undefined |} in
  let st := example_store (Ok (JS.Number (JS.Num 3))) three_books None in
  (listAction example_config st o None example_world).2
  = log_response (Send_html (message_html no_books_message)) example_world.
Proof.
  intros o st.
  rewrite (no_filter_is_no_books example_config st o None example_world); reflexivity.
Defined.

(** X11: a list request with a positive count whose find query returns
    books makes the count query, the find query with limit [PAGE_LIMIT]
    at offset [page * PAGE_LIMIT] (the requested page, not clamped) and
    the four lookups, and renders the book list with the books of the
    find query, their fields attached, and the navigation of the
    requested page and the count.  The page is what the handler parses
    of [options.page], and it and the offset are integers that doubles
    hold exactly; [searchString], if given, is a string. *)
Theorem found_page_is_rendered cfg st o pt w f n b l arows frows srows trows :
  let sort := sortField (Req.sortString o) in
  let page := numField (Req.page o) in
  let offset := JS.mul page (limit cfg) in
  let ids := bookIdString (b :: l) in
  exact_integer (Req.page o) -> exact_number offset ->
  activeFilter (or_string (Req.type o) pt) o = Some f ->
  store_count st f = Ok (JS.Number (JS.Num n)) -> (0 < n)%Z ->
  store_find st f sort (limit cfg) offset = Ok (b :: l) ->
  getAuthorsOfBooks st ids = Ok arows ->
  getFormatsOfBooks st ids = Ok frows ->
  getSeriesOfBooks st ids = Ok srows ->
  getTagsOfBooks st ids = Ok trows ->
  (forall z, Req.page o = JS.Number (JS.Num z) ->
     page = JS.Num z /\ offset = JS.Num (z * PAGE_LIMIT cfg)) /\
  exists l',
    (listAction cfg st o pt w).1 = Ok tt /\
    queries (listAction cfg st o pt w).2
    = queries w ++ [count_query f; find_query f sort (limit cfg) offset] ++ lookups ids /\
    responses (listAction cfg st o pt w).2
    = responses w ++ [Render_booklist (Rows l')
                        (Nav.getPageNavigation cfg page (JS.Number (JS.Num n)))] /\
    Forall2 (enriched arows frows srows trows) (b :: l) l'.
Proof.
  intros sort page offset ids Hx _ Hf Hc Hn Hr Ha Hfo Hs Ht.
  split.
  { intros z Ez. unfold offset, page. rewrite Ez.
    rewrite numField_exact by (specialize (Hx z Ez); lia). split; reflexivity. }
  rewrite (listAction_found cfg st o pt w f n (b :: l) Hf Hc Hn Hr).
  cbv zeta. cbn [length_is_zero]. unfold mbind, M_bind.
  match goal with
  | |- context [addFields st (Rows (b :: l)) ?w2] =>
      destruct (addFields_run st b l arows frows srows trows w2 Ha Hfo Hs Ht)
        as (l' & Hrun & Hl')
  end.
  exists l'. fold ids in Hrun. rewrite Hrun.
  split; [reflexivity|]. split; [simpl; rewrite <- !app_assoc; reflexivity|].
  split; [reflexivity | exact Hl'].
Qed.

Lemma found_page_is_rendered_witness :
  let st := example_store (Ok (JS.Number (JS.Num 3))) three_books None in
  queries (listAction example_config st example_options None example_world).2
  = [QcountBooksWithTags (Some ["harry"; "potter"]) (JS.Num 5);
     QfindBooksWithTags (Some ["harry"; "potter"]) "title" (JS.Num 5)
       (JS.Num 30) (JS.Num 0)] ++ lookups (IdString "11,12,13").
Proof.
  intros st.
  destruct (found_page_is_rendered example_config st example_options None example_world
              (ByTag (Some ["harry"; "potter"]) (JS.Num 5)) 3 (example_book 11)
              [example_book 12; example_book 13] [] [] [] [])
    as (_ & l' & _ & H & _);
    [intros z E; discriminate E | intros z [= <-]; vm_compute; discriminate
    | reflexivity.. |].
  exact H.
Defined.

(** X12: a list request with a positive count whose find query returns
    no book, as for a page beyond the last one, is answered with the
    "access error" message, after the count and the find query.  The
    page is what the handler parses of [options.page], and it and the
    offset are integers that doubles hold exactly; [searchString], if
    given, is a string. *)
Theorem empty_page_is_access_error cfg st o pt w f n :
  let sort := sortField (Req.sortString o) in
  let offset := JS.mul (numField (Req.page o)) (limit cfg) in
  exact_integer (Req.page o) -> exact_number offset ->
  activeFilter (or_string (Req.type o) pt) o = Some f ->
  store_count st f = Ok (JS.Number (JS.Num n)) -> (0 < n)%Z ->
  store_find st f sort (limit cfg) offset = Ok [] ->
  (forall z, Req.page o = JS.Number (JS.Num z) -> offset = JS.Num (z * PAGE_LIMIT cfg)) /\
  listAction cfg st o pt w
  = (Ok tt,
     log_response (Send_html (message_html access_error_message))
       (log_query (find_query f sort (limit cfg) offset)
          (log_query (count_query f) w))).
Proof.
  intros sort offset Hx _ Hf Hc Hn Hr.
  split.
  { intros z Ez. unfold offset. rewrite Ez.
    rewrite numField_exact by (specialize (Hx z Ez); lia). reflexivity. }
  rewrite (listAction_found cfg st o pt w f n [] Hf Hc Hn Hr). reflexivity.
Qed.

Lemma empty_page_is_access_error_witness :
  let st := example_store (Ok (JS.Number (JS.Num 95))) ninety_five_books None in
  responses (listAction example_config st page_10_options None example_world).2
  = [Send_html (message_html access_error_message)].
Proof.
  intros st.
  destruct (empty_page_is_access_error example_config st page_10_options None
              example_world (BySearch None) 95) as [_ H];
    [intros z [= <-]; vm_compute; discriminate
    | intros z [= <-]; vm_compute; discriminate | reflexivity.. |].
  rewrite H. reflexivity.
Defined.



(** ** Entry points and book-detail requests *)

Section BookFacts.

Lemma listAction_dimension_of_filter cfg st o pt w f :
  activeFilter (or_string (Req.type o) pt) o = Some f ->
  exists k, dimensions (listAction cfg st o pt w).2
            = dimensions w ++ replicate (S k) (dimension f).
Proof.
  intros Hf. unfold listAction. rewrite bind_quiet.
  - split_by_filter Hf; try discriminate Hf; injection Hf as <-;
      cbv beta iota zeta;
      repeat match goal with
      | |- context [match ?r with Ok _ => _ | Throw _ => _ end] =>
          destruct r; cbv beta iota zeta
      | |- context [if ?c then _ else _] => destruct c; cbv beta iota zeta
      end;
      cbn [snd]; rewrite ?dimensions_log_query; cbn [dimension_of option_list dimension];
      first [ exists 0%nat; rewrite <- ?app_assoc; reflexivity
            | exists 1%nat; rewrite <- ?app_assoc; reflexivity ].
  - intros [count books]. destruct (_ || _); [apply quiet_respond|].
    apply quiet_bind; [apply quiet_addFields | intros ?; apply quiet_respond].
Qed.

Lemma adjacentBooks_dimension_of_filter st o w f :
  Req.bookId o <> JS.Undefined -> JS.ToBoolean (Req.num o) = true ->
  activeFilter (Req.type o) o = Some f ->
  exists k, dimensions (adjacentBooks st o w).2
            = dimensions w ++ replicate (S k) (dimension f).
Proof.
  intros Hb Hn Hf. unfold adjacentBooks.
  assert (negb match Req.bookId o with JS.Undefined => true | _ => false end = true) as ->
    by (destruct (Req.bookId o); [congruence | reflexivity..]).
  rewrite Hn. cbn [andb]. cbv iota zeta. rewrite bind_quiet.
  - unfold unless_first.
    split_by_filter Hf; try discriminate Hf; injection Hf as <-;
      cbv beta iota zeta;
      repeat match goal with
      | |- context [match ?r with Ok _ => _ | Throw _ => _ end] =>
          destruct r; cbv beta iota zeta
      | |- context [if ?c then _ else _] => destruct c; cbv beta iota zeta
      end;
      cbn [snd]; rewrite ?dimensions_log_query; cbn [dimension_of option_list dimension];
      first [ exists 0%nat; rewrite <- ?app_assoc; reflexivity
            | exists 1%nat; rewrite <- ?app_assoc; reflexivity ].
  - intros [p n]. apply quiet_bind; [apply quiet_first_of | intros ?].
    apply quiet_bind; [apply quiet_first_of | intros ?; apply quiet_ret].
Qed.

Lemma silent_ret {A} (a : A) : silent (mret a).
Proof. intros w. reflexivity. Qed.

Lemma silent_throw {A} e : silent (@throw A e).
Proof. intros w. reflexivity. Qed.

Lemma silent_query {A} q (r : Result A) : silent (query q r).
Proof. intros w. reflexivity. Qed.

Lemma silent_bind {A B} (m : M A) (f : A -> M B) :
  silent m -> (forall a, silent (f a)) -> silent (m ≫= f).
Proof.
  intros Hm Hf w. unfold mbind, M_bind. specialize (Hm w).
  destruct (m w) as [[a|e] w']; simpl in *; [rewrite Hf|]; exact Hm.
Qed.

Lemma silent_adjacentBooks st o : silent (adjacentBooks st o).
Proof.
  unfold adjacentBooks, unless_first, first_of.
  repeat match goal with
         | |- silent (if ?c then _ else _) => destruct c
         | |- silent (match ?x with Some _ => _ | None => _ end) => destruct x
         | |- silent (mret _) => apply silent_ret
         | |- silent (throw _) => apply silent_throw
         | |- silent (_ ≫= _) => apply silent_bind; [|intros ?]
         | |- silent (query _ _) => apply silent_query
         | |- silent (let '(_, _) := ?x in _) => destruct x
         end.
Qed.

Lemma store_find_answers st f s l o :
  never_throws st -> answers (store_find st f s l o).
Proof. intros Hnt. destruct f; apply Hnt. Qed.

(** The neighbours of a request that has a position and resolves to a
    filter, when the find queries return. *)
Lemma adjacentBooks_run st o w f prevRows nextRows :
  let rowNum := JS.sub (JS.parseInt (Req.num o)) (JS.Num 1) in
  let sort := sortField (Req.sortString o) in
  let before := JS.sub rowNum (JS.Num 1) in
  let after := JS.add rowNum (JS.Num 1) in
  Req.bookId o <> JS.Undefined ->
  JS.ToBoolean (Req.num o) = true ->
  activeFilter (Req.type o) o = Some f ->
  store_find st f sort (JS.Num 1) before = Ok prevRows ->
  store_find st f sort (JS.Num 1) after = Ok nextRows ->
  adjacentBooks st o w
  = if JS.eq rowNum (JS.Num 0)
    then (Ok (None, head nextRows), log_query (find_query f sort (JS.Num 1) after) w)
    else (Ok (head prevRows, head nextRows),
          log_query (find_query f sort (JS.Num 1) after)
            (log_query (find_query f sort (JS.Num 1) before) w)).
Proof.
  intros rowNum sort before after Hb Hn Hf Hprev Hnext.
  unfold adjacentBooks. fold rowNum sort before after.
  assert (negb match Req.bookId o with JS.Undefined => true | _ => false end = true) as ->
    by (destruct (Req.bookId o); [congruence | reflexivity..]).
  rewrite Hn. simpl andb. cbv iota. unfold unless_first, first_of.
  split_by_filter Hf; try discriminate Hf; injection Hf as <-;
    simpl in Hprev, Hnext |- *;
    destruct (JS.eq rowNum (JS.Num 0)); rewrite ?Hprev, Hnext; reflexivity.
Qed.

Lemma adjacentBooks_returns st o w :
  never_throws st ->
  (Req.bookId o = JS.Undefined \/ JS.ToBoolean (Req.num o) = false
   \/ activeFilter (Req.type o) o <> None) ->
  exists pn w', adjacentBooks st o w = (Ok pn, w') /\ responses w' = responses w.
Proof.
  intros Hnt Hcase.
  destruct (negb match Req.bookId o with JS.Undefined => true | _ => false end
            && JS.ToBoolean (Req.num o)) eqn:Hguard.
  - apply andb_true_iff in Hguard as [Hb Hn].
    assert (Req.bookId o <> JS.Undefined) as Hb'
      by (intros E; rewrite E in Hb; discriminate).
    destruct Hcase as [E | [E | Hf]]; [congruence | congruence |].
    destruct (activeFilter (Req.type o) o) as [f|] eqn:Ef; [|congruence].
    destruct (store_find_answers st f (sortField (Req.sortString o)) (JS.Num 1)
                (JS.sub (JS.sub (JS.parseInt (Req.num o)) (JS.Num 1)) (JS.Num 1)) Hnt)
      as [prevRows Hp].
    destruct (store_find_answers st f (sortField (Req.sortString o)) (JS.Num 1)
                (JS.add (JS.sub (JS.parseInt (Req.num o)) (JS.Num 1)) (JS.Num 1)) Hnt)
      as [nextRows Hx].
    rewrite (adjacentBooks_run st o w f prevRows nextRows Hb' Hn Ef Hp Hx).
    destruct (JS.eq _ _); eexists _, _; split; reflexivity.
  - exists (None, None), w. unfold adjacentBooks. rewrite Hguard. split; reflexivity.
Qed.

Lemma quietly_with_subTags st bookId t :
  never_throws st -> quietly (with_subTags st bookId t).
Proof.
  intros Hnt. unfold with_subTags. destruct (JS.ToBoolean (colId t)).
  - apply quietly_bind; [apply quietly_query, Hnt | intros ?; apply quietly_ret].
  - apply quietly_ret.
Qed.

End BookFacts.

(** X14: the "serie" and "author" entry points bypass the other
    filters: whatever tagId, ccNum and searchString hold, the count and
    find queries of such a list request are all of the series dimension
    (type "serie") or all of the author dimension (type "author"), and so
    are the find queries of a book-detail request that has a position. *)
Theorem dedicated_entry_points_bypass cfg st o pt w :
  let d (type : option string) := if is_case type "serie" then Serie else Author in
  (dedicated (or_string (Req.type o) pt) = true ->
   exists k, dimensions (listAction cfg st o pt w).2
             = dimensions w ++ replicate (S k) (d (or_string (Req.type o) pt))) /\
  (dedicated (Req.type o) = true ->
   Req.bookId o <> JS.Undefined -> JS.ToBoolean (Req.num o) = true ->
   exists k, dimensions (adjacentBooks st o w).2
             = dimensions w ++ replicate (S k) (d (Req.type o))).
Proof.
  intros d.
  assert (forall type, dedicated type = true ->
            exists f, activeFilter type o = Some f /\ dimension f = d type) as Hded.
  { intros type H. unfold dedicated in H. unfold activeFilter, d.
    destruct (is_case type "serie"); [eexists; split; reflexivity|].
    simpl in H. rewrite H. eexists; split; reflexivity. }
  split.
  - intros H. destruct (Hded _ H) as (f & Hf & <-).
    apply listAction_dimension_of_filter. exact Hf.
  - intros H Hb Hn. destruct (Hded _ H) as (f & Hf & <-).
    apply adjacentBooks_dimension_of_filter; assumption.
Qed.

Lemma dedicated_entry_points_bypass_witness :
  let o := {| Req.page := JS.Undefined; Req.sortString := None;
              Req.type := Some "serie"; Req.searchString := Some "Harry Potter";
              Req.tagId := JS.Number (JS.Num 5); Req.ccNum := JS.Number (JS.Num 3);
              Req.ccId := JS.Undefined; Req.serieId := JS.Number (JS.Num 7);
              Req.authorsId := JS.Undefined; Req.bookId := JS.Number (JS.Num 12);
              Req.num := JS.Number (JS.Num 2) |} in
  let st := example_store (Ok (JS.Number (JS.Num 3))) three_books None in
  (exists k, dimensions (listAction example_config st o None example_world).2
             = replicate (S k) Serie) /\
  (exists k, dimensions (adjacentBooks st o example_world).2 = replicate (S k) Serie).
Proof.
  intros o st.
  destruct (dedicated_entry_points_bypass example_config st o None example_world)
    as [H1 H2].
  split; [apply H1; reflexivity |].
  apply H2; [reflexivity | discriminate | reflexivity].
Defined.

(** X15: a book-detail request for a book the store does not know is
    never answered: the handler raises, and nothing is written to the
    response. *)
Theorem unknown_book_is_unanswered st o w :
  getBook st (JS.parseInt (Req.bookId o)) = Ok None ->
  (exists e, (bookAction st o w).1 = Throw e) /\
  responses (bookAction st o w).2 = responses w.
Proof.
  intros Hg.
  cut (exists e w', bookAction st o w = (Throw e, w') /\ responses w' = responses w).
  { intros (e & w' & -> & H). split; [exists e; reflexivity | exact H]. }
  unfold bookAction.
  rewrite (bind_ok _ _ w None (log_query (QgetBook (JS.parseInt (Req.bookId o))) w))
    by (unfold query; rewrite Hg; reflexivity).
  pose proof (silent_adjacentBooks st o
                (log_query (QgetBook (JS.parseInt (Req.bookId o))) w)) as Hs.
  unfold mbind, M_bind at 1.
  destruct (adjacentBooks st o _) as [[[p n]|e] w2]; simpl in Hs.
  - unfold mbind, M_bind, query, throw.
    destruct (getFormatsOfBooks st _) as [fo|e]; eexists _, _; split; reflexivity || exact Hs.
  - eexists _, _; split; [reflexivity | exact Hs].
Qed.

Lemma unknown_book_is_unanswered_witness :
  let st := example_store (Ok (JS.Number (JS.Num 3))) [] None in
  responses (bookAction st example_options example_world).2 = [].
Proof.
  intros st.
  destruct (unknown_book_is_unanswered st example_options example_world) as [_ H];
    [reflexivity|].
  exact H.
Defined.

(** X16: a book-detail request that has a position but resolves to no
    filter (its type is neither "serie" nor "author", no tagId or ccNum
    is positive and they are not both 0) makes no find query and is never
    answered: after the book is fetched, reading the first neighbour
    raises a TypeError. *)
Theorem position_without_filter_raises st o w :
  answers (getBook st (JS.parseInt (Req.bookId o))) ->
  Req.bookId o <> JS.Undefined -> JS.ToBoolean (Req.num o) = true ->
  activeFilter (Req.type o) o = None ->
  bookAction st o w
  = (Throw (TypeError "Cannot read properties of undefined (reading '0')"),
     log_query (QgetBook (JS.parseInt (Req.bookId o))) w).
Proof.
  intros [book Hg] Hb Hn Hf. unfold bookAction.
  rewrite (bind_ok _ _ w book (log_query (QgetBook (JS.parseInt (Req.bookId o))) w))
    by (unfold query; rewrite Hg; reflexivity).
  apply bind_throw. unfold adjacentBooks.
  assert (negb match Req.bookId o with JS.Undefined => true | _ => false end = true) as ->
    by (destruct (Req.bookId o); [congruence | reflexivity..]).
  rewrite Hn. simpl andb. cbv iota. unfold unless_first, first_of.
  split_by_filter Hf;
    repeat match type of Hf with
           | context [match ?x with _ => _ end] => destruct x
           end; try discriminate Hf; reflexivity.
Qed.

Lemma position_without_filter_raises_witness :
  let o := {| Req.page := JS.Undefined; Req.sortString := None; Req.type := None;
              Req.searchString := None; Req.tagId := JS.Number (JS.Num (-1));
              Req.ccNum := JS.Undefined; Req.ccId := JS.Undefined;
              Req.serieId := JS.Undefined; Req.authorsId := JS.Undefined;
              Req.bookId := JS.Number (JS.Num 12); Req.num := JS.Number (JS.Num 2) |} in
  let st := example_store (Ok (JS.Number (JS.Num 3))) three_books None in
  responses (bookAction st o example_world).2 = [].
Proof.
  intros o st.
  rewrite (position_without_filter_raises st o example_world);
    [reflexivity | eexists; reflexivity | discriminate | reflexivity | reflexivity].
Defined.

(** X17: against a store that never throws, the handler of a
    book-detail request whose body is an object with [searchString]
    absent or a string, for a known book with a publication date, with
    no position or with one that doubles hold exactly and a filter it
    resolves to, returns and hands the book view to render to the
    response, once: the book keeps its id and title, has its formats,
    authors and tags attached, and its date is replaced by null when it
    starts with "0"; the neighbours rendered are the ones resolved
    right after the book was fetched. *)
Theorem known_book_is_rendered st o w b d :
  let id := JS.parseInt (Req.bookId o) in
  let handler := bookAction_end st (Fields o false) in
  never_throws st ->
  getBook st id = Ok (Some b) ->
  pubdate b = Some d ->
  exact_integer (Req.num o) ->
  (Req.bookId o = JS.Undefined \/ JS.ToBoolean (Req.num o) = false
   \/ activeFilter (Req.type o) o <> None) ->
  exists book' p n,
    (handler w).1 = Ok tt /\
    responses (handler w).2 = responses w ++ [Render_book book' p n] /\
    (adjacentBooks st o (log_query (QgetBook id) w)).1 = Ok (p, n) /\
    bookId book' = bookId b /\ title book' = title b /\
    pubdate book' = (if String.eqb (String.substring 0 1 d) "0" then None else Some d) /\
    (exists f, formats book' = Some f) /\
    (exists a, authors book' = Some a) /\
    (exists t, tags book' = Some (TagRows t)).
Proof.
  intros id handler Hnt Hg Hd _ Hcase.
  change handler with (bookAction st o). clear handler.
  cut (exists book' p n w',
         bookAction st o w = (Ok tt, w') /\
         responses w' = responses w ++ [Render_book book' p n] /\
         (adjacentBooks st o (log_query (QgetBook id) w)).1 = Ok (p, n) /\
         bookId book' = bookId b /\ title book' = title b /\
         pubdate book' = (if String.eqb (String.substring 0 1 d) "0" then None else Some d) /\
         (exists f, formats book' = Some f) /\
         (exists a, authors book' = Some a) /\
         (exists t, tags book' = Some (TagRows t))).
  { intros (book' & p & n & w' & -> & H). exists book', p, n. split; [reflexivity | exact H]. }
  unfold bookAction. fold id.
  rewrite (bind_ok _ _ w (Some b) (log_query (QgetBook id) w))
    by (unfold query; rewrite Hg; reflexivity).
  destruct (adjacentBooks_returns st o (log_query (QgetBook id) w) Hnt Hcase)
    as ([p n] & w2 & Ea & Hr2).
  rewrite (bind_ok _ _ _ (p, n) w2 Ea). cbv beta iota zeta.
  destruct (nt_getFormatsOfBooks st Hnt (IdNumber id)) as [fo Hfo].
  erewrite bind_ok by (unfold query; rewrite Hfo; reflexivity).
  erewrite bind_ok by reflexivity.
  destruct (nt_getAuthorsOfBooks st Hnt (IdNumber id)) as [au Hau].
  erewrite bind_ok by (unfold query; rewrite Hau; reflexivity).
  destruct (nt_getPublisherOfBooks st Hnt id) as [pu Hpu].
  erewrite bind_ok by (unfold query; rewrite Hpu; reflexivity).
  destruct (nt_getTagsOfBooks st Hnt (IdNumber id)) as [ta Hta].
  erewrite bind_ok by (unfold query; rewrite Hta; reflexivity).
  lazymatch goal with
  | |- context [(mapM ?f ?l ≫= ?k) ?wx] =>
      destruct (quietly_mapM f l (fun t => quietly_with_subTags st id t Hnt) wx)
        as (ta' & w3 & Em & Hr3);
      rewrite (bind_ok _ k wx ta' w3 Em)
  end.
  destruct (nt_getSeriesOfBooks st Hnt (IdNumber id)) as [se Hse].
  erewrite bind_ok by (unfold query; rewrite Hse; reflexivity).
  assert (forall x, pubdate (match se with
                             | s :: _ => set_serie x (decode_serie s)
                             | [] => x
                             end) = pubdate x) as Hps by (intros x; destruct se; reflexivity).
  assert (forall x, pubdate (match pu with
                             | Some p0 => set_publisher x (decode_publisher p0)
                             | None => x
                             end) = pubdate x) as Hpp by (intros x; destruct pu; reflexivity).
  rewrite Hps. cbn [pubdate set_tags]. rewrite Hpp. cbn [pubdate set_authors set_formats].
  rewrite Hd.
  destruct (String.eqb (String.substring 0 1 d) "0");
    (erewrite bind_ok by reflexivity); unfold respond;
    eexists _, p, n, _; (split; [reflexivity|]);
    (split; [cbn [responses log_response log_query]; rewrite Hr3; cbn [responses log_query];
             rewrite Hr2; reflexivity|]);
    (split; [rewrite Ea; reflexivity|]);
    destruct se, pu; cbn; rewrite ?Hd; repeat split; eauto.
Qed.

Lemma example_store_never_throws c rows cover :
  never_throws (example_store (Ok c) rows cover).
Proof. constructor; intros; eexists; reflexivity. Qed.

Lemma known_book_is_rendered_witness :
  let st := example_store (Ok (JS.Number (JS.Num 3))) three_books None in
  exists book' p n,
    responses (bookAction_end st (Fields example_options false) example_world).2
    = [Render_book book' p n] /\ bookId book' = 11%Z.
Proof.
  intros st.
  destruct (known_book_is_rendered st example_options example_world (example_book 11)
              "2001-01-01") as (book' & p & n & _ & H & _ & Hid & _).
  - apply example_store_never_throws.
  - reflexivity.
  - reflexivity.
  - intros z [= <-]. vm_compute. discriminate.
  - right. right. discriminate.
  - exists book', p, n. split; [exact H | exact Hid].
Defined.


(** X26: the handler of a book-detail request raises, and nothing is
    answered, on a body that is not JSON and on the text [null], before
    any store call, and on a truthy [searchString] that is not a string
    when the request has a position and its type is not ["serie"] or
    ["author"], after the book was fetched. *)
Theorem bad_book_body_is_unanswered st body w :
  book_body_accepted body = false ->
  exists e,
    (bookAction_end st body w).1 = Throw e /\
    responses (bookAction_end st body w).2 = responses w /\
    (forall q, q ∈ queries (bookAction_end st body w).2 ->
               q ∈ queries w \/
               exists o, body = Fields o true /\ q = QgetBook (JS.parseInt (Req.bookId o))).
Proof.
  intros H. destruct body as [| m | | o other]; try discriminate H.
  - eexists. repeat split; auto.
  - eexists. repeat split; auto.
  - unfold bookAction_end. simpl in H.
    destruct other; [|discriminate H].
    destruct (true && _ && _); [|discriminate H].
    cbv zeta. unfold mbind, M_bind, query, throw.
    destruct (getBook st (JS.parseInt (Req.bookId o))) as [book|e];
      eexists; (split; [reflexivity|]); (split; [reflexivity|]);
      simpl; intros q [Hq | Hq]%elem_of_app; auto;
      apply list_elem_of_singleton in Hq; right; exists o; auto.
Qed.

Lemma bad_book_body_is_unanswered_witness :
  let st := example_store (Ok (JS.Number (JS.Num 3))) three_books None in
  responses (bookAction_end st (NotJSON "Unexpected token") example_world).2 = [] /\
  (exists e, (bookAction_end st (Fields example_options true) example_world).1 = Throw e).
Proof.
  intros st. split.
  - destruct (bad_book_body_is_unanswered st (NotJSON "Unexpected token") example_world)
      as (e & _ & H & _); [reflexivity|]. exact H.
  - destruct (bad_book_body_is_unanswered st (Fields example_options true) example_world)
      as (e & H & _); [reflexivity|]. exists e. exact H.
Defined.

(** X27: [parseInt] reads a number through its string, and the string
    of 10^21 is in exponent form, "1e+21": a book-detail request with
    the position 10^21 is treated as one with the position 1.  No query
    is made for a previous book, there is none, and the next book is
    the first row of the find query at offset 1. *)
Theorem position_1e21_is_position_1 st o w f nextRows :
  let sort := sortField (Req.sortString o) in
  Req.bookId o <> JS.Undefined ->
  Req.num o = JS.Number (JS.Num (10 ^ 21)) ->
  activeFilter (Req.type o) o = Some f ->
  store_find st f sort (JS.Num 1) (JS.Num 1) = Ok nextRows ->
  JS.parseInt (Req.num o) = JS.Num 1 /\
  adjacentBooks st o w
  = (Ok (None, head nextRows), log_query (find_query f sort (JS.Num 1) (JS.Num 1)) w).
Proof.
  intros sort Hb Hnum Hf Hnext.
  assert (JS.parseInt (Req.num o) = JS.Num 1) as Hp
    by (rewrite Hnum; vm_compute; reflexivity).
  split; [exact Hp|].
  pose proof (adjacentBooks_offsets st o w f [] nextRows Hb) as H.
  cbv zeta in H. rewrite Hp in H. fold sort in H.
  change (JS.sub (JS.Num 1) (JS.Num 1)) with (JS.Num 0) in H.
  change (JS.add (JS.Num 0) (JS.Num 1)) with (JS.Num 1) in H.
  apply H; [rewrite Hnum; reflexivity | exact Hf | discriminate | exact Hnext | reflexivity].
Qed.

Lemma position_1e21_is_position_1_witness :
  let st := example_store (Ok (JS.Number (JS.Num 3))) three_books None in
  adjacentBooks st position_1e21_options example_world
  = (Ok (None, Some (example_book 12)),
     log_query (QfindBooksWithTags (Some ["harry"; "potter"]) "title"
                  (JS.Num 5) (JS.Num 1) (JS.Num 1)) example_world).
Proof.
  intros st.
  destruct (position_1e21_is_position_1 st position_1e21_options example_world
              (ByTag (Some ["harry"; "potter"]) (JS.Num 5)) [example_book 12])
    as [_ H]; [discriminate | reflexivity | reflexivity | reflexivity |].
  exact H.
Defined.

(** ** Cover requests, in general *)

Section CoverFacts.

Lemma string_app_assoc (a b c : string) : (a +:+ b) +:+ c = a +:+ (b +:+ c).
Proof.
  induction a as [|x a IH]; [reflexivity|].
  change (String x ((a +:+ b) +:+ c) = String x (a +:+ (b +:+ c))).
  rewrite IH. reflexivity.
Qed.

Lemma string_app_inj_r (s1 s2 t : string) : s1 +:+ t = s2 +:+ t -> s1 = s2.
Proof.
  intros H. apply (f_equal list_ascii_of_string) in H.
  rewrite !list_ascii_of_string_app in H. apply app_inv_tail in H.
  rewrite <- (string_of_list_ascii_of_string s1), <- (string_of_list_ascii_of_string s2).
  rewrite H. reflexivity.
Qed.

Lemma thumbnail_path_eq cfg p id :
  thumbnail_path cfg p id
  = IMGCACHE cfg +:+ "/" +:+ leadingDigit p +:+ shard id +:+ "/" +:+ cacheFile id.
Proof.
  unfold thumbnail_path, cacheDir. rewrite !string_app_assoc. reflexivity.
Qed.

Lemma block_digits (id : N) :
  ((((id / 1000) mod 100 * 1000) / 10000) mod 10 = (id / 10000) mod 10 /\
   (((id / 1000) mod 100 * 1000) / 1000) mod 10 = (id / 1000) mod 10)%N.
Proof. split; zify; Z.to_euclidean_division_equations; lia. Qed.

(** A cover request whose book has cover data, up to the cache lookup. *)
Lemma sendResizedCover_unreadable source dir file geom w :
  files w !! (dir +:+ "/" +:+ file) = None ->
  dir +:+ "/" +:+ file ∉ dirs w ->
  files w !! source = None ->
  sendResizedCover source dir file geom w
  = (Ok tt, log_resize {| resize_source := source; resize_data := geom;
                          resize_target := dir +:+ "/" +:+ file |} w).
Proof.
  intros Hf Hd Hs. unfold sendResizedCover, try_catch, mbind, M_bind, pathExists.
  rewrite Hf. rewrite (bool_decide_eq_false_2 _ Hd).
  rewrite (bool_decide_eq_false_2 (is_Some None)) by (intros [? ?]; discriminate).
  simpl. unfold sharp_toFile. rewrite Hs. unfold sendFile. simpl. rewrite Hf.
  reflexivity.
Qed.

Lemma sendResizedCover_keeps_files source dir file geom w path img :
  files w !! path = Some img ->
  (sendResizedCover source dir file geom w).1 = Ok tt /\
  files (sendResizedCover source dir file geom w).2 !! path = Some img /\
  (length (resizes (sendResizedCover source dir file geom w).2)
   <= S (length (resizes w)))%nat /\
  (length (responses (sendResizedCover source dir file geom w).2)
   <= S (length (responses w)))%nat.
Proof.
  intros Hp. unfold sendResizedCover, try_catch, mbind, M_bind, pathExists.
  destruct (bool_decide (is_Some (files w !! (dir +:+ "/" +:+ file)))) eqn:E1.
  - simpl. unfold sendFile. destruct (files w !! (dir +:+ "/" +:+ file));
      simpl; rewrite ?length_app; simpl; repeat split; try exact Hp; lia.
  - apply bool_decide_eq_false in E1.
    assert (path <> dir +:+ "/" +:+ file) as Hne.
    { intros ->. apply E1. eexists. exact Hp. }
    destruct (bool_decide (dir +:+ "/" +:+ file ∈ dirs w)); simpl.
    + unfold sendFile. destruct (files w !! (dir +:+ "/" +:+ file));
        simpl; rewrite ?length_app; simpl; repeat split; try exact Hp; lia.
    + unfold sharp_toFile, sendFile.
      destruct (files w !! source) as [src|]; simpl.
      * rewrite lookup_insert_eq. simpl. rewrite lookup_insert_ne by congruence.
        rewrite !length_app. simpl. repeat split; try exact Hp; lia.
      * destruct (files w !! (dir +:+ "/" +:+ file));
          simpl; rewrite ?length_app; simpl; repeat split; try exact Hp; lia.
Qed.

Lemma cover_store_failure_run (p : Profile) cfg st id e w :
  getCoverData st id = Throw e ->
  coverAction p cfg st id w
  = errorHandler e (action_name p) (log_query (QgetCoverData id) w).
Proof.
  intros H. destruct p; simpl;
    unfold coverListAction, coverBookAction, try_catch, mbind, M_bind, query;
    rewrite H; reflexivity.
Qed.

Lemma errorHandler_run e name w :
  let message :=
    "Cassis: Internal server error in '" +:+ name +:+ "': " +:+ message e in
  (valid_statusMessage message = true ->
   errorHandler e name w = (Ok tt, log_response (WriteHead_end 500 message) w)) /\
  (valid_statusMessage message = false ->
   errorHandler e name w
   = (Throw (TypeError "Invalid character in statusMessage"), w)).
Proof.
  intros msg. unfold errorHandler. fold msg.
  split; intros ->; reflexivity.
Qed.

End CoverFacts.

(** X18: distinct books and distinct profiles never share a thumbnail:
    the cache path of a profile and a (non-negative) book id determines
    both. *)
Theorem thumbnail_path_determines_book cfg p q (a b : N) :
  thumbnail_path cfg p (Z.of_N a) = thumbnail_path cfg q (Z.of_N b) ->
  p = q /\ a = b.
Proof.
  rewrite !thumbnail_path_eq, !shard_digits. intros H.
  apply String.app_inj in H. apply String.app_inj in H.
  assert (leadingDigit p = leadingDigit q /\
          cacheFile (Z.of_N a) = cacheFile (Z.of_N b)) as [Hl Hf].
  { destruct p, q; simpl in H; injection H as H1 H2 H3; auto; discriminate. }
  split.
  - destruct p, q; [reflexivity | discriminate | discriminate | reflexivity].
  - unfold cacheFile in Hf. apply string_app_inj_r in Hf.
    apply (inj pretty) in Hf. lia.
Qed.

Lemma thumbnail_path_determines_book_witness :
  thumbnail_path example_config list_profile (Z.of_N 42) = "./Cache/100/42.jpg" /\
  (list_profile = list_profile /\ 42%N = 42%N).
Proof.
  split; [reflexivity|].
  apply (thumbnail_path_determines_book example_config list_profile list_profile 42 42).
  reflexivity.
Defined.

(** X19: a profile has at most 100 cache directories: the shard of a
    (non-negative) book id is made of two decimal digits, and it is the
    shard of one of the ids 0, 1000, ..., 99000, namely of
    ((id / 1000) mod 100) * 1000. *)
Theorem shard_is_one_of_100 (id : N) :
  String.length (shard (Z.of_N id)) = 2%nat /\
  ((id / 1000) mod 100 < 100)%N /\
  shard (Z.of_N id) = shard (Z.of_N ((id / 1000) mod 100 * 1000)).
Proof.
  rewrite !shard_digits. destruct (block_digits id) as [-> ->].
  split; [reflexivity|]. split; [apply N.mod_lt; discriminate | reflexivity].
Qed.

(** X20: when the thumbnail is not in the cache and the source cover
    cannot be read, the resize is attempted, no file is created and the
    request is left unanswered: neither the image nor an error status is
    written. *)
Theorem unreadable_cover_is_unanswered (p : Profile) cfg st id fd w :
  let dir := cacheDir cfg (leadingDigit p) (cover_bookId fd) in
  let target := dir +:+ "/" +:+ cacheFile (cover_bookId fd) in
  getCoverData st id = Ok (Some fd) ->
  files w !! target = None -> target ∉ dirs w ->
  files w !! coverSource cfg fd = None ->
  coverAction p cfg st id w
  = (Ok tt,
     log_resize {| resize_source := coverSource cfg fd; resize_data := geometry p;
                   resize_target := target |}
       (add_dir dir (log_query (QgetCoverData id) w))).
Proof.
  intros dir target Hfd Hnone Hdir Hsrc.
  rewrite (coverAction_found p cfg st id fd w Hfd). unfold try_catch.
  rewrite sendResizedCover_unreadable; [reflexivity | exact Hnone | | exact Hsrc].
  simpl. intros [Hin | Hin]%elem_of_union; [|exact (Hdir Hin)].
  apply elem_of_singleton in Hin.
  exact (append_nonempty_ne dir (cacheFile (cover_bookId fd)) "/" Hin).
Qed.

Lemma unreadable_cover_is_unanswered_witness :
  let st := example_store (Ok (JS.Number (JS.Num 3))) three_books (Some example_cover) in
  responses (coverBookAction example_config st (JS.Num 42) (initial ∅ ∅)).2 = [] /\
  files (coverBookAction example_config st (JS.Num 42) (initial ∅ ∅)).2 = ∅.
Proof.
  intros st.
  pose proof (unreadable_cover_is_unanswered detail_profile example_config st (JS.Num 42)
                example_cover (initial ∅ ∅)) as H.
  simpl coverAction in H. rewrite H.
  - split; reflexivity.
  - reflexivity.
  - reflexivity.
  - vm_compute. set_solver.
  - reflexivity.
Defined.

(** X21: when the store throws on the cover data, both cover
    operations hand the exception to the error handler, whose status
    message names the operation and carries the message of the
    exception.  If that message holds only characters that [writeHead]
    accepts, the request is answered with status 500 and the message;
    if it holds another character, a line break say, [writeHead] raises
    and nothing is written. *)
Theorem cover_store_failure_is_500 (p : Profile) cfg st id e w :
  let message :=
    "Cassis: Internal server error in '" +:+ action_name p +:+ "': "
    +:+ message e in
  getCoverData st id = Throw e ->
  (valid_statusMessage message = true ->
   coverAction p cfg st id w
   = (Ok tt,
      log_response (WriteHead_end 500 message) (log_query (QgetCoverData id) w))) /\
  (valid_statusMessage message = false ->
   coverAction p cfg st id w
   = (Throw (TypeError "Invalid character in statusMessage"),
      log_query (QgetCoverData id) w)).
Proof.
  intros msg H. rewrite (cover_store_failure_run p cfg st id e w H).
  apply errorHandler_run.
Qed.

Lemma cover_store_failure_is_500_witness :
  responses (coverListAction example_config
               (failing_cover_store (StoreError "database is locked"))
               (JS.Num 7) example_world).2
  = [WriteHead_end 500
       "Cassis: Internal server error in 'coverListAction': database is locked"] /\
  responses (coverBookAction example_config
               (failing_cover_store (StoreError line_break_message))
               (JS.Num 7) example_world).2
  = [].
Proof.
  split.
  - destruct (cover_store_failure_is_500 list_profile example_config
                (failing_cover_store (StoreError "database is locked")) (JS.Num 7)
                (StoreError "database is locked") example_world) as [H _];
      [reflexivity|].
    simpl coverAction in H. rewrite H; reflexivity.
  - destruct (cover_store_failure_is_500 detail_profile example_config
                (failing_cover_store (StoreError line_break_message)) (JS.Num 7)
                (StoreError line_break_message) example_world) as [_ H];
      [reflexivity|].
    simpl coverAction in H. rewrite H; reflexivity.
Defined.

(** X22: a cover request never changes or removes a file that exists:
    whatever the store returns, every file present before the request is
    present with the same content after it; the request makes at most
    one resize and writes at most one response. *)
Theorem cover_request_keeps_files (p : Profile) cfg st id w path img :
  files w !! path = Some img ->
  files (coverAction p cfg st id w).2 !! path = Some img /\
  (length (resizes (coverAction p cfg st id w).2) <= S (length (resizes w)))%nat /\
  (length (responses (coverAction p cfg st id w).2) <= S (length (responses w)))%nat.
Proof.
  intros Hp. destruct (getCoverData st id) as [[fd|]|e] eqn:Hcd.
  - rewrite (coverAction_found p cfg st id fd w Hcd). unfold try_catch.
    match goal with
    | |- context [sendResizedCover ?s ?d ?f ?g ?w0] =>
        pose proof (sendResizedCover_keeps_files s d f g w0 path img Hp) as H;
        destruct (sendResizedCover s d f g w0) as [[[]|e] w1]
    end; simpl in H; destruct H as (H0 & H1 & H2 & H3); [|discriminate H0].
    simpl. repeat split; assumption.
  - destruct p; simpl;
      unfold coverListAction, coverBookAction, try_catch, mbind, M_bind, query;
      rewrite Hcd; simpl; rewrite ?length_app; simpl; repeat split; try exact Hp; lia.
  - rewrite (cover_store_failure_run p cfg st id e w Hcd).
    destruct (errorHandler_run e (action_name p) (log_query (QgetCoverData id) w))
      as [Hvalid Hinvalid].
    destruct (valid_statusMessage _);
      [rewrite Hvalid by reflexivity | rewrite Hinvalid by reflexivity];
      simpl; rewrite ?length_app; simpl; repeat split; try exact Hp; lia.
Qed.

Lemma cover_request_keeps_files_witness :
  let st := example_store (Ok (JS.Number (JS.Num 3))) three_books (Some example_cover) in
  files (coverListAction example_config st (JS.Num 42) example_world).2
    !! "/books/Rowling/Stone (42)/cover.jpg" = Some (Original "stone").
Proof.
  intros st.
  destruct (cover_request_keeps_files list_profile example_config st (JS.Num 42)
              example_world "/books/Rowling/Stone (42)/cover.jpg" (Original "stone"))
    as (H & _); [reflexivity|].
  exact H.
Defined.

(** ** The tokens, in general *)

Section TokenFacts.
Import Tokenizer.

Ltac by_cases_on_code c :=
  destruct c as [[] [] [] [] [] [] [] []]; vm_compute; intros; repeat split; intros;
  congruence.

Lemma is_trim_space_lower c : is_trim_space (lower_char c) = is_trim_space c.
Proof. by_cases_on_code c. Qed.

Lemma sep01_lower_char c :
  let c' := sep01 (lower_char c) in
  (in_whitespace_chars c' = false -> token_char c') /\
  (in_whitespace_chars c' = true -> (N_of_ascii c' =? 172)%N = false /\ lower_char c' = c').
Proof. unfold token_char. by_cases_on_code c. Qed.

Lemma quote_is_token_char c : (N_of_ascii c =? 39)%N = true -> c = quote /\ token_char quote.
Proof. unfold token_char. by_cases_on_code c. Qed.

Lemma not_space_not_quote c :
  ((N_of_ascii c =? 39)%N = true -> (N_of_ascii c =? 32)%N = false) /\
  ((N_of_ascii c =? 32)%N = true -> (N_of_ascii c =? 39)%N = false).
Proof. by_cases_on_code c. Qed.

Lemma trimStart_map (f : ascii -> ascii) l :
  (forall c, is_trim_space (f c) = is_trim_space c) ->
  trimStart (map f l) = map f (trimStart l).
Proof.
  intros Hf. induction l as [|c l IH]; [reflexivity|]. simpl.
  rewrite Hf. destruct (is_trim_space c); [exact IH | reflexivity].
Qed.

Lemma trimEnd_map (f : ascii -> ascii) l :
  (forall c, is_trim_space (f c) = is_trim_space c) ->
  trimEnd (map f l) = map f (trimEnd l).
Proof.
  intros Hf. induction l as [|c l IH]; [reflexivity|]. simpl.
  rewrite IH, Hf. destruct (trimEnd l); [destruct (is_trim_space c)|]; reflexivity.
Qed.

Lemma normalize_lower l : normalize (toLowerCase l) = normalize l.
Proof.
  unfold normalize, trim, toLowerCase.
  rewrite trimStart_map, trimEnd_map by apply is_trim_space_lower.
  rewrite map_map. f_equal. f_equal. f_equal.
  apply map_ext. intros c. apply lower_char_idem.
Qed.

(** After the runs are replaced, a character is a token character or
    the space. *)
Lemma replace_runs_token_chars l : forall b,
  Forall (fun c => token_char c \/ c = space)
    (replace_runs b (replace_char01 (toLowerCase l))).
Proof.
  induction l as [|c l IH]; intros b; simpl; [constructor|].
  fold (sep01 (lower_char c)).
  destruct (sep01_lower_char c) as [H1 _].
  destruct (in_whitespace_chars (sep01 (lower_char c))) eqn:E.
  - destruct b; [apply IH | constructor; [right; reflexivity | apply IH]].
  - constructor; [left; apply H1; reflexivity | apply IH].
Qed.

Lemma double_quotes_token_chars l :
  Forall (fun c => token_char c \/ c = space) l ->
  Forall (fun c => token_char c \/ c = space) (double_quotes l).
Proof.
  induction 1 as [|c l Hc _ IH]; simpl; [constructor|].
  destruct (N_of_ascii c =? 39)%N eqn:E.
  - destruct (quote_is_token_char c E) as [_ Hq]. repeat constructor; auto.
  - constructor; assumption.
Qed.

Lemma split_token_chars l :
  Forall (fun c => token_char c \/ c = space) l ->
  Forall (Forall token_char) (split l).
Proof.
  induction 1 as [|c l Hc _ IH]; simpl; [repeat constructor|].
  destruct (N_of_ascii c =? 32)%N eqn:E.
  - constructor; [constructor | exact IH].
  - destruct (split l) as [|t ts] eqn:Es; [destruct (split_nonempty l Es)|].
    inversion IH as [|? ? Ht Hts]; subst. constructor; [|exact Hts].
    constructor; [|exact Ht].
    destruct Hc as [Hc | ->]; [exact Hc | discriminate E].
Qed.

Lemma split_double_quotes l : split (double_quotes l) = map double_quotes (split l).
Proof.
  induction l as [|c l IH]; [reflexivity|].
  destruct (not_space_not_quote c) as [Hq Hs].
  cbn [double_quotes split].
  destruct (N_of_ascii c =? 39)%N eqn:E39.
  - rewrite (Hq eq_refl). cbn [split].
    change (N_of_ascii quote =? 32)%N with false. cbv iota.
    rewrite IH. destruct (split l) as [|t ts] eqn:Es; [destruct (split_nonempty l Es)|].
    cbn [map double_quotes]. rewrite E39. reflexivity.
  - cbn [split]. destruct (N_of_ascii c =? 32)%N eqn:E32.
    + rewrite IH. reflexivity.
    + rewrite IH. destruct (split l) as [|t ts] eqn:Es; [destruct (split_nonempty l Es)|].
      cbn [map double_quotes]. rewrite E39. reflexivity.
Qed.

Lemma tokens_of_chars s :
  searchStringToArray s
  = map of_chars (split (normalize (list_ascii_of_string s))).
Proof. reflexivity. Qed.

Lemma Forall_map_of_chars (P : chars -> Prop) (ls : list chars) :
  Forall P ls -> Forall (fun t => P (list_ascii_of_string t)) (map of_chars ls).
Proof.
  induction 1 as [|t ts Ht _ IH]; simpl; constructor; [|exact IH].
  unfold of_chars. rewrite list_ascii_of_string_of_list_ascii. exact Ht.
Qed.

End TokenFacts.

(** X23: the tokenizer always returns at least one token, and no token
    holds a separator: every character of every token is outside the
    punctuation and white-space class (so no token holds a space), is not
    the alternate word separator, and is its own lower case. *)
Theorem tokens_hold_no_separator (s : string) :
  Tokenizer.searchStringToArray s <> [] /\
  Forall (fun t => Forall token_char (list_ascii_of_string t))
    (Tokenizer.searchStringToArray s).
Proof.
  rewrite tokens_of_chars. split.
  - intros H. apply map_eq_nil in H. exact (split_nonempty _ H).
  - apply Forall_map_of_chars, split_token_chars.
    unfold Tokenizer.normalize, Tokenizer.replace_whitespace_chars.
    apply double_quotes_token_chars, replace_runs_token_chars.
Qed.

(** X24: the single quotes of every token are doubled: each token is
    the quote-doubling of a piece of the collapsed string, the doubling
    being done piece by piece. *)
Theorem tokens_are_quote_doubled (s : string) :
  Tokenizer.searchStringToArray s
  = map (fun piece => of_chars (Tokenizer.double_quotes piece))
      (Tokenizer.split
         (Tokenizer.collapsed (Tokenizer.trim (list_ascii_of_string s)))).
Proof.
  rewrite tokens_of_chars. unfold Tokenizer.normalize.
  fold (Tokenizer.collapsed (Tokenizer.trim (list_ascii_of_string s))).
  rewrite split_double_quotes, map_map. reflexivity.
Qed.

(** X25: the tokenizer does not see the case of letters: two strings
    with the same lower-case form have the same tokens. *)
Theorem tokens_ignore_case (s1 s2 : string) :
  Tokenizer.toLowerCase (list_ascii_of_string s1)
  = Tokenizer.toLowerCase (list_ascii_of_string s2) ->
  Tokenizer.searchStringToArray s1 = Tokenizer.searchStringToArray s2.
Proof.
  intros H. rewrite !tokens_of_chars.
  rewrite <- (normalize_lower (list_ascii_of_string s1)),
          <- (normalize_lower (list_ascii_of_string s2)), H.
  reflexivity.
Qed.

Lemma tokens_ignore_case_witness :
  Tokenizer.searchStringToArray "HARRY Potter" = Tokenizer.searchStringToArray "harry pOTTER".
Proof. apply tokens_ignore_case. reflexivity. Defined.
